(** * stack-share-to-ftp: the STACK-backed ftp-srv file system

    A shallow embedding of [src/stack-file-system.ts], [src/stack-stats.ts]
    and the login hook of [src/index.ts], together with the two pieces of
    the JavaScript platform the code leans on: the string primitives
    ([indexOf], [lastIndexOf], [substr], [slice]) and Node's
    [path.posix.join].

    Conventions.
    - A JavaScript string is a [string]; a value that may be [undefined]
      is an [option].
    - A thrown exception (a rejected promise, for the [async] methods) is
      the [Err] case of [result].
    - The logger and the HTTP client are effects: a [world] records every
      log record written and every request sent, in order.  The remote
      end is an oracle answering the n-th request.
    - The [do ... while] loop of [list] may run forever; its model takes
      fuel and returns [None] when the fuel runs out. *)

From Stdlib Require Import String Ascii List ZArith Lia Bool Arith.
Import ListNotations.
Local Open Scope string_scope.

(** ** JavaScript string primitives *)

Module Js.

Local Open Scope Z_scope.

(** [s.length] *)
Definition len (s : string) : Z := Z.of_nat (String.length s).

Fixpoint index_from (c : ascii) (s : string) (i : Z) : Z :=
  match s with
  | EmptyString => -1
  | String a s' => if Ascii.eqb a c then i else index_from c s' (i + 1)
  end.

(** [s.indexOf(c)] for a one-character needle: position of the first
    occurrence, [-1] when there is none. *)
Definition indexOf (s : string) (c : ascii) : Z := index_from c s 0.

Fixpoint last_index_from (c : ascii) (s : string) (i last : Z) : Z :=
  match s with
  | EmptyString => last
  | String a s' =>
      last_index_from c s' (i + 1) (if Ascii.eqb a c then i else last)
  end.

(** [s.lastIndexOf(c)]: position of the last occurrence, [-1] when there
    is none. *)
Definition lastIndexOf (s : string) (c : ascii) : Z :=
  last_index_from c s 0 (-1).

(** [s.substr(start, length)]; [length = None] is the one-argument call.
    A negative [start] counts from the end, a negative [length] gives the
    empty string. *)
Definition substr (s : string) (start : Z) (length : option Z) : string :=
  let size := len s in
  let from := if start <? 0 then Z.max (size + start) 0 else Z.min start size in
  let span :=
    match length with
    | None => size - from
    | Some l => Z.min (Z.max l 0) (size - from)
    end in
  substring (Z.to_nat from) (Z.to_nat span) s.

(** [s.slice(from, to)] for [0 <= from], [0 <= to] (the only way the path
    module calls it). *)
Definition slice (s : string) (from to : Z) : string :=
  substring (Z.to_nat from) (Z.to_nat (to - from)) s.

(** [s.charCodeAt(i)], as the character; [None] is NaN (out of range). *)
Definition charAt (s : string) (i : Z) : option ascii :=
  if i <? 0 then None else String.get (Z.to_nat i) s.

End Js.

(** ** Errors and results *)

(** The exceptions the program can raise.  [Error m] is [new Error(m)];
    [TypeError c] is the [TypeError] Node raises with error code [c];
    [TransportError m] is the error object the HTTP client hands to its
    callback when no response was obtained. *)
Inductive js_error : Type :=
| Error (message : string)
| TypeError (code : string)
| TransportError (message : string).

Inductive result (A : Type) : Type :=
| Ok (a : A)
| Err (e : js_error).
Arguments Ok {A} a.
Arguments Err {A} e.

(** ** Node's [path.posix]

    The [path] module belongs to Node, not to the repository.  The
    definitions below follow the posix half of Node's lib/path.js
    ([normalizeString], [normalize], [join]) statement by statement, as
    shipped with the Node 12 of the Dockerfile. *)

Module PathPosix.

Local Open Scope Z_scope.

Definition CHAR_FORWARD_SLASH : ascii := "/"%char.
Definition CHAR_DOT : ascii := "."%char.

Definition isPosixPathSeparator (code : ascii) : bool :=
  Ascii.eqb code CHAR_FORWARD_SLASH.

(** The loop variables of [normalizeString]. *)
Record nstate : Type := mk_nstate {
  res : string;
  lastSegmentLength : Z;
  lastSlash : Z;
  dots : Z
}.

Definition is_dot_at (s : string) (i : Z) : bool :=
  match Js.charAt s i with
  | Some c => Ascii.eqb c CHAR_DOT
  | None => false
  end.

(** Body of the loop for a separator at position [i]. *)
Definition on_separator (path : string) (allowAboveRoot : bool) (i : Z)
    (st : nstate) : nstate :=
  let r := res st in
  if (lastSlash st =? i - 1) || (dots st =? 1) then
    mk_nstate r (lastSegmentLength st) i 0
  else if dots st =? 2 then
    (* the code after the inner [if], reached when no [continue] ran *)
    let above :=
      if allowAboveRoot then
        mk_nstate (if 0 <? Js.len r then r ++ "/.." else "..") 2 i 0
      else
        mk_nstate r (lastSegmentLength st) i 0 in
    if (Js.len r <? 2) || negb (lastSegmentLength st =? 2)
       || negb (is_dot_at r (Js.len r - 1))
       || negb (is_dot_at r (Js.len r - 2)) then
      if 2 <? Js.len r then
        let lastSlashIndex := Js.lastIndexOf r CHAR_FORWARD_SLASH in
        if lastSlashIndex =? -1 then
          mk_nstate "" 0 i 0
        else
          let r' := Js.slice r 0 lastSlashIndex in
          mk_nstate r'
            (Js.len r' - 1 - Js.lastIndexOf r' CHAR_FORWARD_SLASH) i 0
      else if negb (Js.len r =? 0) then
        mk_nstate "" 0 i 0
      else above
    else above
  else
    let seg := Js.slice path (lastSlash st + 1) i in
    mk_nstate (if 0 <? Js.len r then r ++ "/" ++ seg else seg)
              (i - lastSlash st - 1) i 0.

(** One iteration of the loop on character [code] at position [i]. *)
Definition step (path : string) (allowAboveRoot : bool) (i : Z)
    (code : ascii) (st : nstate) : nstate :=
  if isPosixPathSeparator code then on_separator path allowAboveRoot i st
  else if Ascii.eqb code CHAR_DOT && negb (dots st =? -1) then
    mk_nstate (res st) (lastSegmentLength st) (lastSlash st) (dots st + 1)
  else
    mk_nstate (res st) (lastSegmentLength st) (lastSlash st) (-1).

(** [for (i = 0; i <= path.length; ++i)]: [rest] is the part of [path]
    from position [i] on, [code] the character of the previous
    iteration.  At [i = path.length] the loop stops if that character
    was a separator and otherwise runs once more on a virtual ["/"]. *)
Fixpoint normalize_loop (path : string) (allowAboveRoot : bool)
    (rest : string) (i : Z) (code : ascii) (st : nstate) : string :=
  match rest with
  | String c rest' =>
      normalize_loop path allowAboveRoot rest' (i + 1) c
        (step path allowAboveRoot i c st)
  | EmptyString =>
      if isPosixPathSeparator code then res st
      else res (step path allowAboveRoot i CHAR_FORWARD_SLASH st)
  end.

Definition normalizeString (path : string) (allowAboveRoot : bool) : string :=
  normalize_loop path allowAboveRoot path 0 zero (mk_nstate "" 0 (-1) 0).

(** [path.posix.normalize] on a string. *)
Definition normalize (path : string) : string :=
  if Js.len path =? 0 then "."
  else
    let isAbsolute :=
      match Js.charAt path 0 with
      | Some c => isPosixPathSeparator c
      | None => false
      end in
    let trailingSeparator :=
      match Js.charAt path (Js.len path - 1) with
      | Some c => isPosixPathSeparator c
      | None => false
      end in
    let p := normalizeString path (negb isAbsolute) in
    if Js.len p =? 0 then
      if isAbsolute then "/" else if trailingSeparator then "./" else "."
    else
      let p := if trailingSeparator then p ++ "/" else p in
      if isAbsolute then "/" ++ p else p.

(** The accumulation loop of [join]: [joined] is [None] while it is
    [undefined].  Every argument is checked by [validateString] as it is
    reached. *)
Fixpoint join_loop (args : list (option string)) (joined : option string)
    : result (option string) :=
  match args with
  | [] => Ok joined
  | None :: _ => Err (TypeError "ERR_INVALID_ARG_TYPE")
  | Some arg :: args' =>
      if 0 <? Js.len arg then
        join_loop args'
          (match joined with
           | None => Some arg
           | Some j => Some (j ++ "/" ++ arg)
           end)
      else join_loop args' joined
  end.

(** [path.posix.join(...args)]; an argument that is [undefined] is
    [None]. *)
Definition join (args : list (option string)) : result string :=
  match args with
  | [] => Ok "."
  | _ =>
      match join_loop args None with
      | Err e => Err e
      | Ok None => Ok "."
      | Ok (Some joined) => Ok (normalize joined)
      end
  end.

End PathPosix.

(** ** State, effects and the remote end *)

(** A JavaScript value as it appears in a log record, a query string, a
    form or a header. *)
Inductive value : Type :=
| VStr (s : string)
| VNum (n : Z)
| VUndefined.

Definition of_option (o : option string) : value :=
  match o with
  | Some s => VStr s
  | None => VUndefined
  end.

(** The cookie jar is a mutable object owned by the HTTP client library;
    the program only creates it and passes it along, so it is a handle. *)
Definition CookieJar : Type := nat.

(** The options object given to [request]. *)
Record http_request : Type := mk_request {
  rq_baseUrl : string;
  rq_url : string;
  rq_jar : CookieJar;
  rq_method : string;
  rq_json : bool;
  rq_form : list (string * value);
  rq_qs : list (string * value);
  rq_headers : list (string * value)
}.

Module Api.
(** [interface StackApiStats] *)
Record StackApiStats : Type := mk {
  fileId : Z;
  path : string;
  mimetype : string;
  etag : string;
  shareToken : string;
  expirationDate : string;
  hasSharePassword : bool;
  shareTime : Z;
  canUpload : bool;
  fileSize : Z;
  isFavorited : bool;
  mtime : Z;
  isPreviewable : bool;
  mediaType : string;
  width : Z;
  height : Z
}.
End Api.

(** The parsed JSON body of a listing response, as far as the program
    looks into it: [nodes] is [None] when the property is missing. *)
Record json_body : Type := mk_body {
  nodes : option (list Api.StackApiStats)
}.

(** What the callback of [request] receives on success.  [body] is [None]
    when [res.body] is falsy. *)
Record http_response : Type := mk_response {
  statusCode : Z;
  headers : list (string * string);
  body : option json_body
}.

Inductive reply : Type :=
| Responded (res : http_response)
| Failed (e : js_error).

(** The remote end: the answer to a request, given how many requests were
    sent before it. *)
Definition remote : Type := nat -> http_request -> reply.

(** Everything outside the session object that the program changes. *)
Record world : Type := mk_world {
  logs : list (list (string * value));
  sent : list http_request;
  jars : nat
}.

Definition empty_world : world := mk_world [] [] 0.

(** A computation over a state [S] that may throw; the state reached at
    the throw is kept (a record logged before a [throw] stays logged). *)
Definition M (S A : Type) : Type := S -> result A * S.

Section MonadOps.
Context {S : Type}.

Definition ret {A} (a : A) : M S A := fun s => (Ok a, s).

Definition throw {A} (e : js_error) : M S A := fun s => (Err e, s).

Definition bind {A B} (m : M S A) (k : A -> M S B) : M S B :=
  fun s =>
    match m s with
    | (Ok a, s') => k a s'
    | (Err e, s') => (Err e, s')
    end.

Definition of_result {A} (r : result A) : M S A := fun s => (r, s).

Definition gets {A} (f : S -> A) : M S A := fun s => (Ok (f s), s).

Definition modify (f : S -> S) : M S unit := fun s => (Ok tt, f s).
End MonadOps.

Declare Scope js_scope.
Delimit Scope js_scope with js.
Notation "x <- m ;; k" := (bind m (fun x => k))
  (at level 61, m at next level, right associativity) : js_scope.
Notation "m ;; k" := (bind m (fun _ => k))
  (at level 61, right associativity) : js_scope.

(** [logger.info(record)] *)
Definition logger_info (record : list (string * value)) : M world unit :=
  modify (fun w => mk_world (logs w ++ [record]) (sent w) (jars w)).

(** [request.jar()] *)
Definition request_jar : M world CookieJar :=
  fun w => (Ok (jars w), mk_world (logs w) (sent w) (S (jars w))).

(** [request(options)] without waiting for the response: the request goes
    out and the caller keeps the stream. *)
Definition request (options : http_request) : M world http_request :=
  fun w => (Ok options, mk_world (logs w) (sent w ++ [options]) (jars w)).

(** [await util.promisify(request.bind(null, options))()]: the request goes
    out; the promise resolves with the response or rejects with the
    client's error. *)
Definition await_request (net : remote) (options : http_request)
    : M world http_response :=
  fun w =>
    let w' := mk_world (logs w) (sent w ++ [options]) (jars w) in
    match net (List.length (sent w)) options with
    | Responded res => (Ok res, w')
    | Failed e => (Err e, w')
    end.

(** [res.headers[name]] *)
Fixpoint header (hs : list (string * string)) (name : string) : option string :=
  match hs with
  | [] => None
  | (k, v) :: hs' => if String.eqb k name then Some v else header hs' name
  end.

(** ** [StackStats]  (src/stack-stats.ts) *)

Module StackStats.

Record t : Type := mk {
  mimetype : string;
  ino : Z;
  size : Z;
  mtime : Z;   (* the [Date], in milliseconds since the epoch *)
  name : string
}.

(** [new StackStats(stat)] *)
Definition new (stat : Api.StackApiStats) : t :=
  {| mimetype := Api.mimetype stat;
     ino := Api.fileId stat;
     size := Api.fileSize stat;
     mtime := (Api.mtime stat * 1000)%Z;
     name := Js.substr (Api.path stat)
               (Js.lastIndexOf (Api.path stat) "/"%char + 1)%Z None |}.

Definition isDirectory (this : t) : bool :=
  String.eqb (mimetype this) "httpd/unix-directory".

Definition isFile (this : t) : bool := negb (isDirectory this).

Definition isBlockDevice (this : t) : bool := false.
Definition isCharacterDevice (this : t) : bool := false.
Definition isSymbolicLink (this : t) : bool := false.
Definition isFIFO (this : t) : bool := false.
Definition isSocket (this : t) : bool := false.

End StackStats.

(** ** [StackFileSystem]  (src/stack-file-system.ts) *)

(** The part of ftp-srv's [FtpConnection] the file system reads. *)
Record FtpConnection : Type := mk_connection {
  id : string
}.

(** The fields of a [StackFileSystem] object. *)
Record StackFileSystem : Type := mk_fs {
  connection : FtpConnection;
  root : string;
  workingDir : string;
  baseUrl : string;
  csrfToken : option string;
  cookieJar : CookieJar
}.

(** [private static readonly maxFiles = 100] *)
Definition maxFiles : nat := 100.

(** The private constructor; [root] and [workingDir] take their field
    initialisers. *)
Definition new_StackFileSystem (connection : FtpConnection) (baseUrl : string)
    (csrfToken : option string) (cookieJar : CookieJar) : StackFileSystem :=
  {| connection := connection;
     root := "/";
     workingDir := "/";
     baseUrl := baseUrl;
     csrfToken := csrfToken;
     cookieJar := cookieJar |}.

Local Open Scope js_scope.

(** The base URL [create] derives from the user name [share@domain]:
    the text before the first ["@"] is the share, the text after it the
    domain. *)
Definition base_url_of (username : string) : string :=
  let at_ := Js.indexOf username "@"%char in
  let share := Js.substr username 0 (Some at_) in
  let domain := Js.substr username (at_ + 1) None in
  "https://" ++ domain ++ "/public-share/" ++ share ++ "/".

(** The options of the login request. *)
Definition login_options (baseUrl : string) (cookieJar : CookieJar)
    (password : string) : http_request :=
  {| rq_baseUrl := baseUrl;
     rq_url := "info/";
     rq_jar := cookieJar;
     rq_method := "POST";
     rq_json := false;
     rq_form := [("password", VStr password)];
     rq_qs := [];
     rq_headers := [] |}.

(** [StackFileSystem.create(connection, username, password)] *)
Definition create (net : remote) (connection : FtpConnection)
    (username password : string) : M world StackFileSystem :=
  logger_info [("action", VStr "create"); ("username", VStr username)] ;;
  let baseUrl := base_url_of username in
  cookieJar <- request_jar ;;
  res <- await_request net (login_options baseUrl cookieJar password) ;;
  if negb (statusCode res =? 200)%Z then
    throw (Error ("STACK login failed for user '" ++ username ++ "'."))
  else
    ret (new_StackFileSystem connection baseUrl
           (header (headers res) "csrf-token") cookieJar).

(** The state an instance method runs in: the object it is called on and
    the world. *)
Record session_state : Type := mk_state {
  this : StackFileSystem;
  env : world
}.

(** An effect on the world, run from inside a method. *)
Definition in_world {A} (m : M world A) : M session_state A :=
  fun s =>
    let (r, w) := m (env s) in
    (r, mk_state (this s) w).

(** [this.workingDir = dir] *)
Definition set_workingDir (dir : string) : M session_state unit :=
  modify (fun s =>
    mk_state
      {| connection := connection (this s);
         root := root (this s);
         workingDir := dir;
         baseUrl := baseUrl (this s);
         csrfToken := csrfToken (this s);
         cookieJar := cookieJar (this s) |}
      (env s)).

(** [StackFileSystem.logger.info({ client: this.connection.id, ...fields })] *)
Definition info (fields : list (string * value)) : M session_state unit :=
  client <- gets (fun s => id (connection (this s))) ;;
  in_world (logger_info (("client", VStr client) :: fields)).

(** [get cwd()] *)
Definition cwd : M session_state string :=
  gets (fun s => workingDir (this s)).

Definition currentDirectory : M session_state string := cwd.

(** [path.posix.join(this.cwd, fileName)] *)
Definition join_cwd (fileName : option string) : M session_state string :=
  dir <- cwd ;;
  of_result (PathPosix.join [Some dir; fileName]).

(** What [get] returns: an object with the one method [isDirectory]. *)
Record stat_like : Type := mk_stat_like {
  stat_isDirectory : unit -> bool
}.

Definition get (fileName : string) : M session_state stat_like :=
  clientPath <- join_cwd (Some fileName) ;;
  info [("action", VStr "get"); ("path", VStr clientPath)] ;;
  ret {| stat_isDirectory := fun _ => true |}.

(** The options of the listing request for page [i] of [clientPath]. *)
Definition list_options (fs : StackFileSystem) (clientPath : string) (i : nat)
    : http_request :=
  {| rq_baseUrl := baseUrl fs;
     rq_url := "list";
     rq_jar := cookieJar fs;
     rq_method := "GET";
     rq_json := true;
     rq_form := [];
     rq_qs := [("type", VStr "folder");
               ("offset", VNum (Z.of_nat (i * maxFiles)));
               ("limit", VNum (Z.of_nat maxFiles));
               ("sortBy", VStr "default");
               ("order", VStr "asc");
               ("dir", VStr clientPath)];
     rq_headers := [] |}.

(** The [do ... while] loop of [list], entered with the current values of
    [i], [nodes] and [fetched].  [None]: the fuel ran out before the loop
    ended. *)
Fixpoint list_loop (net : remote) (fuel : nat) (clientPath : string)
    (i : nat) (nodes : list StackStats.t) (fetched : nat) (s : session_state)
    : option (result (list StackStats.t) * session_state) :=
  match fuel with
  | O => None
  | S fuel' =>
      match in_world (await_request net (list_options (this s) clientPath i)) s with
      | (Err e, s') => Some (Err e, s')
      | (Ok res, s') =>
          let '(i', nodes', fetched') :=
            match body res with
            | Some (mk_body (Some ns)) =>
                ((i + 1)%nat, (nodes ++ map StackStats.new ns)%list, List.length ns)
            | _ => (i, nodes, fetched)
            end in
          if (fetched' =? maxFiles)%nat
          then list_loop net fuel' clientPath i' nodes' fetched' s'
          else Some (Ok nodes', s')
      end
  end.

(** [list(fileName?)] *)
Definition list_ (net : remote) (fuel : nat) (fileName : option string)
    (s : session_state) : option (result (list StackStats.t) * session_state) :=
  match (clientPath <- join_cwd fileName ;;
         info [("action", VStr "list"); ("path", VStr clientPath)] ;;
         ret clientPath) s with
  | (Err e, s') => Some (Err e, s')
  | (Ok clientPath, s') => list_loop net fuel clientPath 0 [] 0 s'
  end.

(** [chdir(fileName?)] *)
Definition chdir (fileName : option string) : M session_state string :=
  base <- gets (fun s => root (this s)) ;;
  dir <- of_result (PathPosix.join [Some base; fileName]) ;;
  set_workingDir dir ;;
  dir' <- cwd ;;
  info [("action", VStr "cwd"); ("path", VStr dir')] ;;
  cwd.

(** [write(fileName)]: the [PassThrough] stream is piped into the upload
    request; the caller gets the stream (here: the request it feeds) and
    the resolved path. *)
Definition write (fileName : string) : M session_state (http_request * string) :=
  clientPath <- join_cwd (Some fileName) ;;
  info [("action", VStr "write"); ("path", VStr clientPath)] ;;
  fs <- gets this ;;
  stream <- in_world (request
    {| rq_baseUrl := baseUrl fs;
       rq_url := "upload" ++ clientPath;
       rq_jar := cookieJar fs;
       rq_method := "PUT";
       rq_json := false;
       rq_form := [];
       rq_qs := [];
       rq_headers := [("CSRF-Token", of_option (csrfToken fs))] |}) ;;
  ret (stream, clientPath).

(** The options of the download request for [clientPath]. *)
Definition download_options (fs : StackFileSystem) (clientPath : string)
    : http_request :=
  {| rq_baseUrl := baseUrl fs;
     rq_url := "download";
     rq_jar := cookieJar fs;
     rq_method := "POST";
     rq_json := false;
     rq_form := [("CSRF-Token", of_option (csrfToken fs));
                 ("paths[]", VStr clientPath)];
     rq_qs := [];
     rq_headers := [] |}.

(** [read(fileName)] *)
Definition read (fileName : string) : M session_state http_request :=
  clientPath <- join_cwd (Some fileName) ;;
  info [("action", VStr "read"); ("path", VStr clientPath)] ;;
  fs <- gets this ;;
  in_world (request (download_options fs clientPath)).

Definition not_implemented : js_error := Error "Method not implemented.".

(** [delete(fileName)] *)
Definition delete (fileName : string) : M session_state unit :=
  clientPath <- join_cwd (Some fileName) ;;
  info [("action", VStr "delete"); ("path", VStr clientPath)] ;;
  throw not_implemented.

(** [mkdir(fileName)] *)
Definition mkdir (fileName : string) : M session_state unit :=
  clientPath <- join_cwd (Some fileName) ;;
  info [("action", VStr "mkdir"); ("path", VStr clientPath)] ;;
  throw not_implemented.

(** [rename(from, to)] *)
Definition rename (from to : string) : M session_state unit :=
  fromPath <- join_cwd (Some from) ;;
  toPath <- join_cwd (Some to) ;;
  info [("action", VStr "rename"); ("from", VStr fromPath); ("to", VStr toPath)] ;;
  throw not_implemented.

(** [chmod(fileName, mode)] *)
Definition chmod (fileName mode : string) : M session_state unit :=
  clientPath <- join_cwd (Some fileName) ;;
  info [("action", VStr "chmod"); ("path", VStr clientPath); ("mode", VStr mode)] ;;
  throw not_implemented.

(** [getUniqueName()] *)
Definition getUniqueName : M session_state string :=
  info [("action", VStr "unique-name")] ;;
  throw not_implemented.

(** ** The login hook  (src/index.ts) *)

(** [data] of the ['login'] event. *)
Record login_data : Type := mk_login {
  login_connection : FtpConnection;
  login_username : string;
  login_password : string
}.

(** Which of its two callbacks the hook calls, and with what. *)
Inductive login_outcome : Type :=
| Resolve (fs : StackFileSystem)
| Reject (e : js_error).

(** [ftpServer.on('login', async (data, resolve, reject) => ...)] *)
Definition on_login (net : remote) (data : login_data)
    : world -> login_outcome * world :=
  fun w =>
    match create net (login_connection data) (login_username data)
            (login_password data) w with
    | (Ok fs, w') => (Resolve fs, w')
    | (Err e, w') => (Reject e, w')
    end.

(** * Vocabulary of the statements *)

Local Open Scope nat_scope.

(** The state after a method that only wrote [record] to the log. *)
Definition logged (s : session_state) (record : list (string * value))
    : session_state :=
  mk_state (this s)
    (mk_world (logs (env s) ++ [record]) (sent (env s)) (jars (env s))).

(** The log record of a method that resolves one path. *)
Definition path_record (s : session_state) (action clientPath : string)
    : list (string * value) :=
  [("client", VStr (id (connection (this s))));
   ("action", VStr action); ("path", VStr clientPath)].

(** A session on the share [docs] of [stack.example.com] whose working
    directory is [dir], in a world where nothing happened yet. *)
Definition session_at (dir : string) : session_state :=
  mk_state
    {| connection := mk_connection "c0";
       root := "/";
       workingDir := dir;
       baseUrl := "https://stack.example.com/public-share/docs/";
       csrfToken := Some "token";
       cookieJar := 0 |}
    empty_world.

(** "[read target] in state [s] issues the download request for path [p]":
    the call returns the stream of that request and that request is the
    one thing sent. *)
Definition read_requests (s : session_state) (target p : string) : Prop :=
  fst (read target s) = Ok (download_options (this s) p)
  /\ sent (env (snd (read target s)))
     = (sent (env s) ++ [download_options (this s) p])%list.

(** A run of [chdir] calls, one per target, in order; a call that throws
    ends the run. *)
Fixpoint chdir_all (targets : list string) : M session_state unit :=
  match targets with
  | [] => ret tt
  | t :: ts => chdir (Some t) ;; chdir_all ts
  end.

(** The claim's reading of one resolution step: an absolute target
    replaces the working directory, a relative one is appended to it, and
    the result is normalised lexically. *)
Definition spec_resolve (dir target : string) : string :=
  match target with
  | String "/" _ => PathPosix.normalize target
  | _ => PathPosix.normalize (dir ++ "/" ++ target)
  end.

(** The claim's reading of a run: the steps applied left to right from
    ["/"]. *)
Definition spec_cwd_after (targets : list string) : string :=
  fold_left spec_resolve targets "/".

(** A remote folder without entries: every request is answered by an
    empty page. *)
Definition empty_folder : remote :=
  fun _ _ => Responded (mk_response 200 [] (Some (mk_body (Some [])))).

(** The world after one more request. *)
Definition after_request (w : world) (rq : http_request) : world :=
  mk_world (logs w) (sent w ++ [rq]) (jars w).

(** The reply carries the page [p] as its node list (whatever its status
    and headers). *)
Definition serves_page (r : reply) (p : list Api.StackApiStats) : Prop :=
  exists sc hs, r = Responded (mk_response sc hs (Some (mk_body (Some p)))).

(** [qs[key]] of a request. *)
Fixpoint qs_lookup (qs : list (string * value)) (key : string) : option value :=
  match qs with
  | [] => None
  | (k, v) :: qs' => if String.eqb k key then Some v else qs_lookup qs' key
  end.

(** A numeric query parameter, [0] when absent. *)
Definition qs_nat (rq : http_request) (key : string) : nat :=
  match qs_lookup (rq_qs rq) key with
  | Some (VNum z) => Z.to_nat z
  | _ => 0
  end.

(** A remote folder holding [entries]: each listing request is answered
    with the window of [limit] entries that starts at [offset]. *)
Definition folder (entries : list Api.StackApiStats) : remote :=
  fun _ rq =>
    Responded
      (mk_response 200 []
         (Some (mk_body
            (Some (firstn (qs_nat rq "limit")
                     (skipn (qs_nat rq "offset") entries)))))).

(** The remote answers the listing requests of a [list] call started in
    state [s] with [pages], in order: the [k]-th request, for page [k] of
    [clientPath], gets the [k]-th page. *)
Definition scripted (net : remote) (s : session_state) (clientPath : string)
    (pages : list (list Api.StackApiStats)) : Prop :=
  forall k p,
    nth_error pages k = Some p ->
    serves_page (net (List.length (sent (env s)) + k)
                     (list_options (this s) clientPath k)) p.

(** [list target] started in [s] returns [found] after sending exactly
    [requests], and leaves the session object alone. *)
Definition lists (net : remote) (fuel : nat) (target : string)
    (s : session_state) (found : list StackStats.t)
    (requests : list http_request) : Prop :=
  exists s',
    list_ net fuel (Some target) s = Some (Ok found, s')
    /\ sent (env s') = (sent (env s) ++ requests)%list
    /\ this s' = this s.

(** The requests for pages [0 .. n-1] of [clientPath]; the request for
    page [k] has offset [k * 100] and limit [100]. *)
Definition page_requests (s : session_state) (clientPath : string) (n : nat)
    : list http_request :=
  map (list_options (this s) clientPath) (seq 0 n).

(** The reply that carries page [p]. *)
Definition page (p : list Api.StackApiStats) : reply :=
  Responded (mk_response 200 [] (Some (mk_body (Some p)))).

(** A remote that gives the replies of a script, one per request, and
    refuses the connection once the script is used up. *)
Definition script (replies : list reply) : remote :=
  fun n _ => nth n replies (Failed (TransportError "ECONNREFUSED")).

Definition sample_entry : Api.StackApiStats :=
  Api.mk 7 "/docs/readme.txt" "text/plain" "5f2a" "" "" false 0 false
    1024 false 1600000000 false "" 0 0.

(** The spec's notion of a failed page fetch (section 4.1): a transport
    error or a status outside 200..299. *)
Definition fetch_failed (r : reply) : bool :=
  match r with
  | Failed _ => true
  | Responded res =>
      negb ((200 <=? statusCode res)%Z && (statusCode res <? 300)%Z)
  end.

(** The world after [create] has logged the attempt, made its jar and
    sent the login request. *)
Definition after_login (w : world) (username password : string) : world :=
  mk_world
    (logs w ++ [[("action", VStr "create"); ("username", VStr username)]])
    (sent w ++ [login_options (base_url_of username) (jars w) password])
    (S (jars w)).

(** [p] starts with a slash. *)
Definition absolute (p : string) : bool :=
  match p with
  | String "/" _ => true
  | _ => false
  end.

(** [ks] is a run of page numbers as the loop of [list] can ask for them
    from page [i] on: it starts at [i], and each next number is the one
    before (the page is asked again) or its successor. *)
Fixpoint climbs (i : nat) (ks : list nat) : bool :=
  match ks with
  | [] => true
  | k :: ks' => (k =? i) && (climbs i ks' || climbs (i + 1) ks')
  end.

(** The reply is a response without a node list. *)
Definition without_nodes (r : reply) : Prop :=
  exists res,
    r = Responded res /\ (body res = None \/ body res = Some (mk_body None)).

(** The URL and the path that a [write] hands out, if it succeeds. *)
Definition written_url_and_path (r : result (http_request * string))
    : option (string * string) :=
  match r with
  | Ok (rq, p) => Some (rq_url rq, p)
  | Err _ => None
  end.

(** A path segment as a normalised path has them: not empty, neither
    ["."] nor [".."], and without a slash. *)
Definition plain_segment (seg : string) : Prop :=
  seg <> ""%string /\ seg <> "."%string /\ seg <> ".."%string
  /\ Js.indexOf seg "/"%char = (-1)%Z.

(** An absolute path in normal form: a slash, plain segments with one
    slash between neighbours, and at most one slash after the last
    segment. *)
Definition normal_path (p : string) : Prop :=
  exists segs trail,
    p = ("/" ++ String.concat "/" segs ++ trail)%string
    /\ Forall plain_segment segs
    /\ (trail = ""%string \/ (trail = "/"%string /\ segs <> [])).

(** The string is made of dots only. *)
Fixpoint all_dots (s : string) : bool :=
  match s with
  | EmptyString => true
  | String a s' => Ascii.eqb a "."%char && all_dots s'
  end.

(** The value of the counter [dots] of [normalizeString] once the
    characters [cur] of a segment have been read. *)
Definition dots_of (cur : string) : Z :=
  if all_dots cur then Js.len cur else (-1)%Z.

(** What is known when the loop of [normalizeString] over [path] stands
    at position [i]: [pre] was read up to and including the last slash, [cur] since
    then, and [rest] is still to come. *)
Record at_position (path pre cur rest : string) (i : Z)
    (st : PathPosix.nstate) : Prop := mk_at {
  at_path : path = (pre ++ cur ++ rest)%string;
  at_i : i = (Js.len pre + Js.len cur)%Z;
  at_lastSlash : PathPosix.lastSlash st = (Js.len pre - 1)%Z;
  at_cur : Js.indexOf cur "/"%char = (-1)%Z;
  at_dots : PathPosix.dots st = dots_of cur;
  at_res : exists segs,
      PathPosix.res st = String.concat "/" segs /\ Forall plain_segment segs
}.

(** The reply carries a node list. *)
Definition carries_nodes (r : reply) : bool :=
  match r with
  | Responded (mk_response _ _ (Some (mk_body (Some _)))) => true
  | _ => false
  end.

(** The reply carries a page of exactly 100 records. *)
Definition full_page (r : reply) : Prop :=
  exists p, List.length p = maxFiles /\ serves_page r p.

(** Replies after each of which the loop of [list] goes on to another
    fetch: full pages, and, once a full page has come in, responses
    without a node list (the same page is then asked again).  These are
    the only ways the loop can go on: the first reply must be a full
    page. *)
Definition keeps_fetching (earlier : list reply) : Prop :=
  Forall (fun r => full_page r \/ without_nodes r) earlier
  /\ match earlier with
     | [] => True
     | r :: _ => full_page r
     end.

(** The number of the page the loop asks for once it has received
    [earlier]: one further for every reply that carried a node list. *)
Definition page_after (earlier : list reply) : nat :=
  List.length (filter carries_nodes earlier).

(** The remote gives [replies], in order, to the fetches of a [list] call
    started in [s]: fetch [k], which asks for the page reached after the
    first [k] replies, gets reply [k]. *)
Definition answers (net : remote) (s : session_state) (clientPath : string)
    (replies : list reply) : Prop :=
  forall k r,
    nth_error replies k = Some r ->
    net (List.length (sent (env s)) + k)
        (list_options (this s) clientPath (page_after (firstn k replies)))
    = r.

(** The requests of the fetches that [replies] answer. *)
Definition fetch_requests (s : session_state) (clientPath : string)
    (replies : list reply) : list http_request :=
  map (fun k => list_options (this s) clientPath (page_after (firstn k replies)))
      (seq 0 (List.length replies)).

(** * Properties *)

(** ** Path resolution *)

(** [join] never throws on string arguments. *)
Lemma join_strings (a b : string) :
  exists p, PathPosix.join [Some a; Some b] = Ok p.
Proof.
  unfold PathPosix.join, PathPosix.join_loop.
  destruct (0 <? Js.len a)%Z, (0 <? Js.len b)%Z; eexists; reflexivity.
Qed.

(** [join] throws as soon as its second argument is [undefined]. *)
Lemma join_undefined (a : string) :
  PathPosix.join [Some a; None] = Err (TypeError "ERR_INVALID_ARG_TYPE").
Proof.
  unfold PathPosix.join, PathPosix.join_loop.
  destruct (0 <? Js.len a)%Z; reflexivity.
Qed.

Ltac run_method :=
  cbv [get delete mkdir rename chmod getUniqueName read write chdir
       join_cwd cwd info in_world logger_info request
       bind ret throw gets modify of_result set_workingDir logged path_record].

(** Every method of the shape "resolve, log, throw" behaves alike. *)
Lemma resolve_log_throw (action : string) (s : session_state) (fileName : string) :
  exists clientPath,
    PathPosix.join [Some (workingDir (this s)); Some fileName] = Ok clientPath /\
    (clientPath <- join_cwd (Some fileName) ;;
     info [("action", VStr action); ("path", VStr clientPath)] ;;
     throw (A := unit) not_implemented) s
    = (Err not_implemented, logged s (path_record s action clientPath)).
Proof.
  destruct (join_strings (workingDir (this s)) fileName) as [p Hp].
  exists p. split; [exact Hp|].
  run_method. rewrite Hp. reflexivity.
Qed.

(** ** The attribute adapter *)

(** C7.  [isDirectory] of the adapter built from a remote record is true
    exactly when the record's mimetype is the string
    ["httpd/unix-directory"]; the symbolic-link, block-device,
    character-device, socket and FIFO predicates are false for every
    record. *)
Theorem isDirectory_iff_sentinel (stat : Api.StackApiStats) :
  (StackStats.isDirectory (StackStats.new stat) = true
     <-> Api.mimetype stat = "httpd/unix-directory")
  /\ StackStats.isSymbolicLink (StackStats.new stat) = false
  /\ StackStats.isBlockDevice (StackStats.new stat) = false
  /\ StackStats.isCharacterDevice (StackStats.new stat) = false
  /\ StackStats.isSocket (StackStats.new stat) = false
  /\ StackStats.isFIFO (StackStats.new stat) = false.
Proof.
  repeat split; unfold StackStats.isDirectory, StackStats.new in *;
    cbn [StackStats.mimetype] in *.
  - now intros H; apply String.eqb_eq.
  - now intros H; apply String.eqb_eq.
Qed.

(** ** Operations that touch nothing remote *)

(** C9.  [get] succeeds for every file name, sends no request, leaves the
    session as it was, and the object it returns answers [true] to
    [isDirectory()]. *)
Theorem get_always_directory (s : session_state) (fileName : string) :
  exists st s',
    get fileName s = (Ok st, s')
    /\ stat_isDirectory st tt = true
    /\ sent (env s') = sent (env s)
    /\ this s' = this s.
Proof.
  destruct (join_strings (workingDir (this s)) fileName) as [p Hp].
  run_method. rewrite Hp. cbn.
  eexists; eexists; split; [reflexivity|]. auto.
Qed.

(** C8.  [mkdir], [delete], [rename], [chmod] and [getUniqueName] fail on
    every session and every argument with [Error("Method not
    implemented.")]; the paths they were given are resolved against the
    working directory and written to the log, and that log record is the
    only change: no request is sent and the session is untouched. *)
Theorem unsupported_operations (s : session_state) (fileName to mode : string) :
  (exists p,
      PathPosix.join [Some (workingDir (this s)); Some fileName] = Ok p /\
      mkdir fileName s = (Err not_implemented, logged s (path_record s "mkdir" p)))
  /\ (exists p,
      PathPosix.join [Some (workingDir (this s)); Some fileName] = Ok p /\
      delete fileName s = (Err not_implemented, logged s (path_record s "delete" p)))
  /\ (exists p q,
      PathPosix.join [Some (workingDir (this s)); Some fileName] = Ok p /\
      PathPosix.join [Some (workingDir (this s)); Some to] = Ok q /\
      rename fileName to s
      = (Err not_implemented,
         logged s [("client", VStr (id (connection (this s))));
                   ("action", VStr "rename"); ("from", VStr p); ("to", VStr q)]))
  /\ (exists p,
      PathPosix.join [Some (workingDir (this s)); Some fileName] = Ok p /\
      chmod fileName mode s
      = (Err not_implemented,
         logged s [("client", VStr (id (connection (this s))));
                   ("action", VStr "chmod"); ("path", VStr p); ("mode", VStr mode)]))
  /\ getUniqueName s
     = (Err not_implemented,
        logged s [("client", VStr (id (connection (this s))));
                  ("action", VStr "unique-name")]).
Proof.
  destruct (join_strings (workingDir (this s)) fileName) as [p Hp].
  destruct (join_strings (workingDir (this s)) to) as [q Hq].
  repeat split.
  - apply (resolve_log_throw "mkdir").
  - apply (resolve_log_throw "delete").
  - exists p, q. repeat split; trivial. run_method. now rewrite Hp, Hq.
  - exists p. split; trivial. run_method. now rewrite Hp.
Qed.

(** The unsupported operations send nothing and do not move the working
    directory: [logged] changes the log only. *)
Lemma logged_quiet (s : session_state) (record : list (string * value)) :
  sent (env (logged s record)) = sent (env s)
  /\ this (logged s record) = this s.
Proof. split; reflexivity. Qed.

(** C10.  With the target left out ([undefined]), [list] and [chdir] both
    fail with the [TypeError] that [path.posix.join] raises on a
    non-string argument.  Nothing else happens: the working directory is
    not touched, nothing is logged or sent, and the working directory is
    not used as a default. *)
Theorem omitted_target_is_type_error (net : remote) (fuel : nat)
    (s : session_state) :
  list_ net fuel None s = Some (Err (TypeError "ERR_INVALID_ARG_TYPE"), s)
  /\ chdir None s = (Err (TypeError "ERR_INVALID_ARG_TYPE"), s).
Proof.
  split.
  - unfold list_. run_method. now rewrite join_undefined.
  - run_method. now rewrite join_undefined.
Qed.

(** ** Resolution of the target of [read] *)

(** [read] resolves its target with [join] and asks for that path. *)
Lemma read_requests_join (s : session_state) (target p : string) :
  PathPosix.join [Some (workingDir (this s)); Some target] = Ok p ->
  read_requests s target p.
Proof.
  intros Hp. unfold read_requests. run_method. rewrite Hp. split; reflexivity.
Qed.

(** C1, as stated, fails: from the working directory ["/a"],
    [read("/a/b.txt")] does not request ["/a/b.txt"]. *)
Lemma read_absolute_target_not_replacing :
  ~ read_requests (session_at "/a") "/a/b.txt" "/a/b.txt".
Proof.
  unfold read_requests. intros [H _]. vm_compute in H. discriminate H.
Qed.

(** C1, amended.  For a session whose working directory is ["/a"],
    [read("/a/b.txt")] issues the download request for ["/a/a/b.txt"]:
    [path.posix.join] appends the target to the working directory also when
    the target starts with a slash. *)
Theorem read_absolute_target_appended (s : session_state) :
  workingDir (this s) = "/a" ->
  read_requests s "/a/b.txt" "/a/a/b.txt".
Proof.
  intros Hcwd. apply read_requests_join. rewrite Hcwd. reflexivity.
Qed.

Lemma read_absolute_target_appended_witness :
  workingDir (this (session_at "/a")) = "/a"
  /\ read_requests (session_at "/a") "/a/b.txt" "/a/a/b.txt".
Proof.
  split; [reflexivity|].
  apply (read_absolute_target_appended (session_at "/a")). reflexivity.
Defined.

(** ** [chdir] *)

(** What one [chdir] does: the target is joined to [root], never to the
    working directory. *)
Lemma chdir_joins_root (s : session_state) (target : string) :
  exists p,
    PathPosix.join [Some (root (this s)); Some target] = Ok p
    /\ fst (chdir (Some target) s) = Ok p
    /\ workingDir (this (snd (chdir (Some target) s))) = p
    /\ root (this (snd (chdir (Some target) s))) = root (this s)
    /\ sent (env (snd (chdir (Some target) s))) = sent (env s).
Proof.
  destruct (join_strings (root (this s)) target) as [p Hp].
  exists p. split; [exact Hp|].
  run_method. rewrite Hp. cbn. auto.
Qed.

(** After a non-empty run of [chdir] calls on a session rooted at ["/"]
    the working directory is the last target joined to ["/"]: the earlier
    calls leave no trace. *)
Lemma chdir_all_last (targets : list string) (t : string) (s : session_state) :
  exists p,
    PathPosix.join [Some (root (this s)); Some t] = Ok p
    /\ workingDir (this (snd (chdir_all (targets ++ [t]) s))) = p.
Proof.
  revert s. induction targets as [|u us IH]; intros s.
  - destruct (chdir_joins_root s t) as (p & Hp & Hr & Hw & _).
    exists p. split; [exact Hp|].
    cbn [chdir_all app]. unfold bind at 1.
    destruct (chdir (Some t) s) as [[d|e] s1] eqn:E; cbn in *; congruence.
  - destruct (chdir_joins_root s u) as (q & Hq & Hr & Hw & Hroot & _).
    cbn [chdir_all app]. unfold bind at 1.
    destruct (chdir (Some u) s) as [[d|e] s1] eqn:E; cbn in Hr; [|discriminate].
    cbn [snd] in Hroot. rewrite <- Hroot. apply IH.
Qed.

(** C2 at the failing input.  From ["/"], [chdir("a")] followed by
    [chdir("b")] leaves the working directory at ["/b"], where applying the
    two targets left to right, each against the directory reached so far,
    gives ["/a/b"]; [chdir("..")] from ["/"] does stay at ["/"]. *)
Theorem chdir_run_forgets_cwd :
  workingDir (this (snd (chdir_all ["a"; "b"] (session_at "/")))) = "/b"
  /\ spec_cwd_after ["a"; "b"] = "/a/b"
  /\ workingDir (this (snd (chdir (Some "..") (session_at "/")))) = "/".
Proof. repeat split; vm_compute; reflexivity. Qed.

(** ** [list] *)

(** C3 at the failing input.  From the working directory ["/a"],
    [list("b")] asks the remote for the directory ["/a/b"] and leaves the
    session as it was, while [chdir("b")] resolves the same target to
    ["/b"]. *)
Theorem list_and_chdir_resolve_apart :
  list_ empty_folder 1 (Some "b") (session_at "/a")
  = Some (Ok [],
          mk_state (this (session_at "/a"))
            (mk_world [path_record (session_at "/a") "list" "/a/b"]
                      [list_options (this (session_at "/a")) "/a/b" 0] 0))
  /\ fst (chdir (Some "b") (session_at "/a")) = Ok "/b".
Proof. split; vm_compute; reflexivity. Qed.

(** [list] resolves its target against the working directory and enters
    the loop with [i = 0], no nodes and [fetched = 0]. *)
Lemma list_enters_loop (net : remote) (fuel : nat) (s : session_state)
    (target p : string) :
  PathPosix.join [Some (workingDir (this s)); Some target] = Ok p ->
  list_ net fuel (Some target) s
  = list_loop net fuel p 0 [] 0 (logged s (path_record s "list" p)).
Proof.
  intros Hp. unfold list_. run_method. now rewrite Hp.
Qed.

Section ListLoop.
Variable net : remote.
Variable fs : StackFileSystem.
Variable clientPath : string.

(** One turn of the loop on a response that carries a node list. *)
Lemma list_loop_nodes fuel i acc fetched w sc hs ns :
  net (List.length (sent w)) (list_options fs clientPath i)
  = Responded (mk_response sc hs (Some (mk_body (Some ns)))) ->
  list_loop net (S fuel) clientPath i acc fetched (mk_state fs w)
  = let s' := mk_state fs (after_request w (list_options fs clientPath i)) in
    if (List.length ns =? maxFiles)%nat
    then list_loop net fuel clientPath (i + 1)
           (acc ++ map StackStats.new ns)%list (List.length ns) s'
    else Some (Ok (acc ++ map StackStats.new ns)%list, s').
Proof.
  intros H. cbn [list_loop]. unfold in_world, await_request.
  cbn [env this]. rewrite H. reflexivity.
Qed.

(** One turn of the loop on a response without a node list: [i], [nodes]
    and [fetched] keep their values. *)
Lemma list_loop_no_nodes fuel i acc fetched w res :
  net (List.length (sent w)) (list_options fs clientPath i) = Responded res ->
  (body res = None \/ body res = Some (mk_body None)) ->
  list_loop net (S fuel) clientPath i acc fetched (mk_state fs w)
  = let s' := mk_state fs (after_request w (list_options fs clientPath i)) in
    if (fetched =? maxFiles)%nat
    then list_loop net fuel clientPath i acc fetched s'
    else Some (Ok acc, s').
Proof.
  intros H Hb. cbn [list_loop]. unfold in_world, await_request.
  cbn [env this]. rewrite H. destruct Hb as [-> | ->]; reflexivity.
Qed.

(** One turn of the loop on a request that yields an error. *)
Lemma list_loop_failed fuel i acc fetched w e :
  net (List.length (sent w)) (list_options fs clientPath i) = Failed e ->
  list_loop net (S fuel) clientPath i acc fetched (mk_state fs w)
  = Some (Err e, mk_state fs (after_request w (list_options fs clientPath i))).
Proof.
  intros H. cbn [list_loop]. unfold in_world, await_request.
  cbn [env this]. rewrite H. reflexivity.
Qed.

End ListLoop.

(** The loop never changes the session object. *)
Lemma list_loop_keeps_session (net : remote) (clientPath : string) (fuel : nat) :
  forall i acc fetched s r s',
    list_loop net fuel clientPath i acc fetched s = Some (r, s') ->
    this s' = this s.
Proof.
  induction fuel as [|fuel IH]; intros i acc fetched s r s' H; [discriminate|].
  cbn [list_loop] in H. unfold in_world, await_request in H.
  destruct (net _ _) as [res|e].
  - destruct (body res) as [[[ns|]]|];
      match type of H with
      | (if ?c then _ else _) = _ =>
          destruct c; [apply IH in H; exact H | now inversion H]
      end.
  - now inversion H.
Qed.

(** [list] leaves the working directory, like every other field of the
    session, as it found it. *)
Lemma list_keeps_session (net : remote) (fuel : nat) (target : option string)
    (s : session_state) r s' :
  list_ net fuel target s = Some (r, s') -> this s' = this s.
Proof.
  destruct target as [t|].
  - destruct (join_strings (workingDir (this s)) t) as [p Hp].
    rewrite (list_enters_loop _ _ _ _ _ Hp). intros H.
    now apply list_loop_keeps_session in H.
  - unfold list_. run_method. rewrite join_undefined.
    intros H. now inversion H.
Qed.

(** ** Pagination *)

(** The loop over a run of full pages closed by a short one. *)
Lemma list_loop_pages (net : remote) (fs : StackFileSystem) (clientPath : string)
    (last : list Api.StackApiStats) :
  List.length last < maxFiles ->
  forall (full : list (list Api.StackApiStats)) fuel i acc fetched w,
    Forall (fun p => List.length p = maxFiles) full ->
    (forall k p, nth_error (full ++ [last]) k = Some p ->
       serves_page (net (List.length (sent w) + k)
                        (list_options fs clientPath (i + k))) p) ->
    List.length full < fuel ->
    list_loop net fuel clientPath i acc fetched (mk_state fs w)
    = Some (Ok (acc ++ map StackStats.new (concat (full ++ [last])))%list,
            mk_state fs
              (mk_world (logs w)
                 (sent w ++ map (list_options fs clientPath)
                              (seq i (S (List.length full))))
                 (jars w))).
Proof.
  intros Hlast.
  induction full as [|p full IH]; intros fuel i acc fetched w Hfull Hnet Hfuel;
    (destruct fuel as [|fuel]; [cbn in Hfuel; lia|]).
  - destruct (Hnet 0 last eq_refl) as (sc & hs & H0).
    rewrite !Nat.add_0_r in H0.
    rewrite (list_loop_nodes _ _ _ _ _ _ _ _ _ _ _ H0). cbv zeta.
    replace (List.length last =? maxFiles) with false
      by (symmetry; apply Nat.eqb_neq; lia).
    cbn [app concat seq map List.length]. rewrite app_nil_r. reflexivity.
  - inversion Hfull as [|? ? Hp Hfull']; subst.
    destruct (Hnet 0 p eq_refl) as (sc & hs & H0).
    rewrite !Nat.add_0_r in H0.
    rewrite (list_loop_nodes _ _ _ _ _ _ _ _ _ _ _ H0). cbv zeta.
    rewrite Hp, Nat.eqb_refl.
    rewrite (IH fuel (i + 1) _ maxFiles _ Hfull').
    + unfold after_request. cbn [logs sent jars app concat List.length].
      rewrite map_app, <- !app_assoc.
      replace (i + 1) with (S i) by lia.
      reflexivity.
    + intros k q Hq. unfold after_request. cbn [sent].
      rewrite length_app. cbn [List.length].
      replace (List.length (sent w) + 1 + k) with (List.length (sent w) + S k) by lia.
      replace (i + 1 + k) with (i + S k) by lia.
      apply Hnet. exact Hq.
    + cbn in Hfuel. lia.
Qed.

Lemma list_options_window (fs : StackFileSystem) (clientPath : string) (i : nat) :
  qs_nat (list_options fs clientPath i) "offset" = i * maxFiles
  /\ qs_nat (list_options fs clientPath i) "limit" = maxFiles.
Proof.
  unfold qs_nat, list_options. cbn [rq_qs qs_lookup String.eqb Ascii.eqb Bool.eqb].
  split; apply Nat2Z.id.
Qed.

Lemma firstn_plus {A} (a b : nat) (l : list A) :
  firstn (a + b) l = (firstn a l ++ firstn b (skipn a l))%list.
Proof.
  revert l. induction a as [|a IH]; intros [|x l]; cbn; trivial.
  - now rewrite firstn_nil.
  - now rewrite IH.
Qed.

(** The loop over a folder: entered at page [i] with the first [i] pages
    gathered, it ends with every entry gathered, having asked for the
    pages [i .. length entries / maxFiles]. *)
Lemma list_loop_folder (fs : StackFileSystem) (clientPath : string)
    (entries : list Api.StackApiStats) :
  forall fuel i fetched w,
    i * maxFiles <= List.length entries ->
    List.length entries < (i + fuel) * maxFiles ->
    list_loop (folder entries) fuel clientPath i
      (map StackStats.new (firstn (i * maxFiles) entries)) fetched
      (mk_state fs w)
    = Some (Ok (map StackStats.new entries),
            mk_state fs
              (mk_world (logs w)
                 (sent w ++ map (list_options fs clientPath)
                    (seq i (List.length entries / maxFiles + 1 - i)))
                 (jars w))).
Proof.
  induction fuel as [|fuel IH]; intros i fetched w Hlo Hhi.
  - rewrite Nat.add_0_r in Hhi. lia.
  - assert (Hstep := list_loop_nodes (folder entries) fs clientPath fuel i
        (map StackStats.new (firstn (i * maxFiles) entries)) fetched w 200 []
        (firstn maxFiles (skipn (i * maxFiles) entries))).
    rewrite Hstep; clear Hstep.
    2:{ unfold folder.
        destruct (list_options_window fs clientPath i) as [-> ->]. reflexivity. }
    cbv zeta. rewrite <- map_app, <- firstn_plus.
    rewrite length_firstn, length_skipn.
    destruct (Nat.eqb_spec
                (Nat.min maxFiles (List.length entries - i * maxFiles)) maxFiles)
      as [Hfull | Hshort].
    + replace (i * maxFiles + maxFiles) with ((i + 1) * maxFiles) by lia.
      rewrite (IH (i + 1)); [| lia | lia].
      unfold after_request. cbn [logs sent jars].
      assert (Hq : i + 1 <= List.length entries / maxFiles).
      { apply Nat.div_le_lower_bound; [discriminate | lia]. }
      replace (List.length entries / maxFiles + 1 - i)
        with (S (List.length entries / maxFiles + 1 - (i + 1))) by lia.
      cbn [seq map]. rewrite <- app_assoc.
      replace (i + 1) with (S i) by lia. reflexivity.
    + rewrite firstn_all2 by lia.
      assert (Hq : List.length entries / maxFiles = i).
      { symmetry. apply (Nat.div_unique _ _ _ (List.length entries - i * maxFiles)); lia. }
      rewrite Hq. replace (i + 1 - i) with 1 by lia.
      reflexivity.
Qed.

Lemma lists_pages (net : remote) (s : session_state) (target clientPath : string)
    (full : list (list Api.StackApiStats)) (last : list Api.StackApiStats)
    (fuel : nat) :
  PathPosix.join [Some (workingDir (this s)); Some target] = Ok clientPath ->
  Forall (fun p => List.length p = maxFiles) full ->
  List.length last < maxFiles ->
  scripted net s clientPath (full ++ [last]) ->
  List.length full < fuel ->
  lists net fuel target s
    (map StackStats.new (concat (full ++ [last])))
    (page_requests s clientPath (S (List.length full))).
Proof.
  intros Hp Hfull Hlast Hnet Hfuel. unfold lists.
  rewrite (list_enters_loop _ _ _ _ _ Hp). unfold logged.
  rewrite (list_loop_pages net (this s) clientPath last Hlast full fuel 0 []); trivial.
  eexists. split; [reflexivity|]. split; reflexivity.
Qed.

Lemma lists_folder (s : session_state) (target clientPath : string)
    (entries : list Api.StackApiStats) (fuel : nat) :
  PathPosix.join [Some (workingDir (this s)); Some target] = Ok clientPath ->
  List.length entries / maxFiles < fuel ->
  lists (folder entries) fuel target s
    (map StackStats.new entries)
    (page_requests s clientPath (List.length entries / maxFiles + 1)).
Proof.
  intros Hp Hfuel. unfold lists.
  rewrite (list_enters_loop _ _ _ _ _ Hp). unfold logged.
  assert (H := list_loop_folder (this s) clientPath entries fuel 0 0).
  cbn [Nat.mul firstn map] in H. rewrite H.
  - rewrite Nat.sub_0_r.
    eexists. split; [reflexivity|]. split; reflexivity.
  - apply Nat.le_0_l.
  - cbn [Nat.add].
    assert (Hm := Nat.mul_succ_div_gt (List.length entries) maxFiles).
    apply Nat.lt_le_trans with (maxFiles * S (List.length entries / maxFiles)).
    + apply Hm. discriminate.
    + rewrite (Nat.mul_comm fuel). apply Nat.mul_le_mono_l. exact Hfuel.
Qed.

Lemma length_concat_full {A} (n : nat) (full : list (list A)) (last : list A) :
  Forall (fun p => List.length p = n) full ->
  List.length (concat (full ++ [last])) = List.length full * n + List.length last.
Proof.
  induction 1 as [|p full Hp _ IH]; cbn [app concat List.length].
  - now rewrite app_nil_r.
  - rewrite length_app, IH, Hp. lia.
Qed.

(** C4.  Let [list target] resolve to [clientPath].

    (a) When the remote answers the successive listing requests with pages
    [full ++ [last]], every page of [full] holding 100 records and [last]
    fewer (possibly none), [list] asks for the pages at offsets 0, 100,
    200, ... in this order, as many as there are pages and no more, and
    returns the records of all pages, in the order fetched, each mapped by
    [new StackStats].

    (b) Pages of 100, 100 and 37 records give 237 results.

    (c) Pages of 100 and 0 records give 100 results.

    (d) On a folder of [k * 100] entries [list] sends [k + 1] requests; the
    last one, at offset [k * 100], is answered by an empty page. *)
Theorem list_pagination (s : session_state) (target clientPath : string)
    (Hpath : PathPosix.join [Some (workingDir (this s)); Some target]
             = Ok clientPath) :
  (forall net full last fuel,
      Forall (fun p => List.length p = 100) full ->
      List.length last < 100 ->
      scripted net s clientPath (full ++ [last]) ->
      List.length full < fuel ->
      lists net fuel target s
        (map StackStats.new (concat (full ++ [last])))
        (page_requests s clientPath (S (List.length full)))
      /\ map (fun rq => qs_lookup (rq_qs rq) "offset")
           (page_requests s clientPath (S (List.length full)))
         = map (fun k => Some (VNum (Z.of_nat (k * 100))))
             (seq 0 (S (List.length full))))
  /\ (forall net p1 p2 p3 fuel,
      List.length p1 = 100 -> List.length p2 = 100 -> List.length p3 = 37 ->
      scripted net s clientPath [p1; p2; p3] ->
      2 < fuel ->
      exists found,
        lists net fuel target s found (page_requests s clientPath 3)
        /\ List.length found = 237)
  /\ (forall net p1 fuel,
      List.length p1 = 100 ->
      scripted net s clientPath [p1; []] ->
      1 < fuel ->
      exists found,
        lists net fuel target s found (page_requests s clientPath 2)
        /\ List.length found = 100)
  /\ (forall entries k fuel,
      List.length entries = k * 100 ->
      k < fuel ->
      lists (folder entries) fuel target s
        (map StackStats.new entries) (page_requests s clientPath (k + 1))
      /\ forall n,
           folder entries n (list_options (this s) clientPath k)
           = Responded (mk_response 200 [] (Some (mk_body (Some []))))).
Proof.
  repeat apply conj.
  - intros net full last fuel Hfull Hlast Hnet Hfuel. split.
    + now apply lists_pages.
    + unfold page_requests. rewrite map_map. reflexivity.
  - intros net p1 p2 p3 fuel H1 H2 H3 Hnet Hfuel.
    exists (map StackStats.new (concat ([p1; p2] ++ [p3]))). split.
    + apply (lists_pages net s target clientPath [p1; p2] p3); trivial.
      * repeat constructor; assumption.
      * rewrite H3. unfold maxFiles. lia.
    + rewrite length_map, (length_concat_full 100); [rewrite H3; reflexivity|].
      repeat constructor; assumption.
  - intros net p1 fuel H1 Hnet Hfuel.
    exists (map StackStats.new (concat ([p1] ++ [[]]))). split.
    + apply (lists_pages net s target clientPath [p1] []); trivial.
      * repeat constructor; assumption.
      * unfold maxFiles. cbn. lia.
    + rewrite length_map, (length_concat_full 100); [reflexivity|].
      repeat constructor; assumption.
  - intros entries k fuel Hk Hfuel.
    assert (Hq : List.length entries / maxFiles = k).
    { rewrite Hk. apply Nat.div_mul. discriminate. }
    split.
    + rewrite <- Hq. apply lists_folder; trivial. now rewrite Hq.
    + intros n. unfold folder.
      destruct (list_options_window (this s) clientPath k) as [-> ->].
      rewrite skipn_all2 by (unfold maxFiles; lia).
      now rewrite firstn_nil.
Qed.

Lemma script_scripted (pages : list (list Api.StackApiStats))
    (rest : list reply) (s : session_state) (clientPath : string) :
  sent (env s) = [] ->
  scripted (script (map page pages ++ rest)) s clientPath pages.
Proof.
  intros Hs k p Hk. rewrite Hs. cbn [List.length Nat.add]. unfold script.
  revert k Hk. induction pages as [|q pages IH]; intros [|k] Hk;
    try discriminate; cbn in *.
  - inversion Hk. now exists 200%Z, [].
  - now apply IH.
Qed.

Lemma list_pagination_witness :
  PathPosix.join [Some (workingDir (this (session_at "/"))); Some "docs"]
  = Ok "/docs"
  /\ exists found,
       lists (script [page (repeat sample_entry 100);
                      page (repeat sample_entry 100);
                      page (repeat sample_entry 37)])
         3 "docs" (session_at "/") found
         (page_requests (session_at "/") "/docs" 3)
       /\ List.length found = 237.
Proof.
  split; [reflexivity|].
  apply (proj1 (proj2 (list_pagination (session_at "/") "docs" "/docs" eq_refl))
           _ (repeat sample_entry 100) (repeat sample_entry 100)
           (repeat sample_entry 37) 3).
  - reflexivity.
  - reflexivity.
  - reflexivity.
  - apply (script_scripted
             [repeat sample_entry 100; repeat sample_entry 100;
              repeat sample_entry 37] []).
    reflexivity.
  - lia.
Defined.

(** ** Failing page fetches *)

(** After a full page, a remote that from then on answers without a node
    list keeps the loop asking for the same page: [fetched] stays at 100
    and [list] does not return, whatever the fuel. *)
Lemma list_loop_spins (net : remote) (fs : StackFileSystem) (clientPath : string)
    (n0 i : nat) (acc : list StackStats.t) (res : http_response) :
  body res = None ->
  (forall n rq, n0 <= n -> net n rq = Responded res) ->
  forall fuel w,
    n0 <= List.length (sent w) ->
    list_loop net fuel clientPath i acc maxFiles (mk_state fs w) = None.
Proof.
  intros Hbody Hnet. induction fuel as [|fuel IH]; intros w Hw; [reflexivity|].
  rewrite (list_loop_no_nodes net fs clientPath fuel i acc maxFiles w res).
  - cbv zeta. rewrite Nat.eqb_refl. apply IH.
    unfold after_request. cbn [sent]. rewrite length_app. lia.
  - now apply Hnet.
  - now left.
Qed.

(** C5, as stated, fails.  Let the second of three fetches fail with
    status 500 and no body, the other two bringing 100 and 37 records:
    [list] asks for the second page again and returns 137 records.  And
    when the one and only fetch fails with status 503, [list] returns the
    empty listing instead of failing. *)
Lemma list_survives_failed_fetch :
  let s := session_at "/" in
  let fs := this s in
  let bad := Responded (mk_response 500 [] None) in
  fetch_failed bad = true
  /\ list_ (script [page (repeat sample_entry 100); bad;
                    page (repeat sample_entry 37)])
       3 (Some "docs") s
     = Some (Ok (repeat (StackStats.new sample_entry) 137),
             mk_state fs
               (mk_world [path_record s "list" "/docs"]
                  [list_options fs "/docs" 0; list_options fs "/docs" 1;
                   list_options fs "/docs" 1] 0))
  /\ fetch_failed (Responded (mk_response 503 [] None)) = true
  /\ list_ (script [Responded (mk_response 503 [] None)]) 1 (Some "docs") s
     = Some (Ok [],
             mk_state fs
               (mk_world [path_record s "list" "/docs"]
                  [list_options fs "/docs" 0] 0)).
Proof. repeat split; vm_compute; reflexivity. Qed.

Lemma full_page_carries (r : reply) : full_page r -> carries_nodes r = true.
Proof. intros (p & _ & sc & hs & ->). reflexivity. Qed.

Lemma without_nodes_carries (r : reply) :
  without_nodes r -> carries_nodes r = false.
Proof.
  intros (res & -> & Hb). destruct res as [sc hs b]. cbn [body] in Hb.
  destruct Hb as [-> | ->]; reflexivity.
Qed.

(** The loop, entered at page [i], over replies that keep it fetching and
    a transport failure after them. *)
Lemma list_loop_fails (net : remote) (fs : StackFileSystem) (clientPath : string)
    (e : js_error) :
  forall (earlier : list reply) fuel i acc fetched w,
    Forall (fun r => full_page r \/ without_nodes r) earlier ->
    (fetched = maxFiles
     \/ match earlier with [] => True | r :: _ => full_page r end) ->
    (forall k r,
       nth_error (earlier ++ [Failed e]) k = Some r ->
       net (List.length (sent w) + k)
           (list_options fs clientPath
              (i + page_after (firstn k (earlier ++ [Failed e]))))
       = r) ->
    List.length earlier < fuel ->
    list_loop net fuel clientPath i acc fetched (mk_state fs w)
    = Some (Err e,
            mk_state fs
              (mk_world (logs w)
                 (sent w
                  ++ map (fun k =>
                            list_options fs clientPath
                              (i + page_after (firstn k (earlier ++ [Failed e]))))
                       (seq 0 (S (List.length earlier))))
                 (jars w))).
Proof.
  induction earlier as [|r rs IH]; intros fuel i acc fetched w Hall Hgo Hnet Hfuel;
    (destruct fuel as [|fuel]; [cbn in Hfuel; lia|]).
  - assert (H0 := Hnet 0 (Failed e) eq_refl).
    cbn [firstn page_after filter List.length] in H0.
    rewrite !Nat.add_0_r in H0.
    rewrite (list_loop_failed _ _ _ _ _ _ _ _ _ H0).
    cbn [app List.length seq map firstn page_after filter].
    now rewrite Nat.add_0_r.
  - assert (H0 := Hnet 0 r eq_refl).
    cbn [firstn page_after filter List.length] in H0.
    rewrite !Nat.add_0_r in H0.
    apply Forall_cons_iff in Hall. destruct Hall as [Hr Hrs].
    assert (Hshift : forall (c : nat) (w1 : world),
      List.length (sent w1) = List.length (sent w) + 1 ->
      i + (if carries_nodes r then 1 else 0) = c ->
      forall k r',
        nth_error (rs ++ [Failed e]) k = Some r' ->
        net (List.length (sent w1) + k)
            (list_options fs clientPath
               (c + page_after (firstn k (rs ++ [Failed e]))))
        = r').
    { intros c w1 Hlen Hc k r' Hk.
      assert (H := Hnet (S k) r' Hk).
      cbn [app firstn] in H. unfold page_after in H |- *.
      cbn [filter] in H. rewrite Hlen.
      replace (List.length (sent w) + 1 + k) with (List.length (sent w) + S k) by lia.
      rewrite <- H. f_equal. f_equal.
      destruct (carries_nodes r); cbn [List.length]; lia. }
    assert (Hsent : forall c,
      i + (if carries_nodes r then 1 else 0) = c ->
      ((sent w ++ [list_options fs clientPath i])
       ++ map (fun k => list_options fs clientPath
                          (c + page_after (firstn k (rs ++ [Failed e]))))
            (seq 0 (S (List.length rs))))%list
      = (sent w
         ++ map (fun k => list_options fs clientPath
                            (i + page_after (firstn k ((r :: rs) ++ [Failed e]))))
              (seq 0 (S (List.length (r :: rs)))))%list).
    { intros c Hc. rewrite <- app_assoc. f_equal.
      cbn [List.length].
      change (seq 0 (S (S (List.length rs))))
        with (0 :: seq 1 (S (List.length rs))).
      cbn [map app firstn page_after filter List.length].
      rewrite Nat.add_0_r. f_equal.
      rewrite <- seq_shift, map_map. apply map_ext. intros k.
      cbn [app firstn]. unfold page_after. cbn [filter]. f_equal.
      destruct (carries_nodes r); cbn [List.length]; lia. }
    destruct Hr as [Hfull | Hnone].
    + assert (Hc := full_page_carries r Hfull).
      destruct Hfull as (p & Hp & sc & hs & ->).
      rewrite (list_loop_nodes _ _ _ _ _ _ _ _ _ _ _ H0). cbv zeta.
      rewrite Hp, Nat.eqb_refl.
      rewrite (IH fuel (i + 1) _ maxFiles); trivial.
      * unfold after_request. cbn [logs sent jars].
        rewrite (Hsent (i + 1)); [reflexivity | now rewrite Hc].
      * now left.
      * apply Hshift; [|now rewrite Hc].
        unfold after_request. cbn [sent]. rewrite length_app. reflexivity.
      * cbn in Hfuel. lia.
    + assert (Hc := without_nodes_carries r Hnone).
      assert (Hfetched : fetched = maxFiles).
      { destruct Hgo as [Hgo | Hgo]; trivial.
        apply full_page_carries in Hgo. congruence. }
      destruct Hnone as (res & -> & Hb).
      rewrite (list_loop_no_nodes _ _ _ _ _ _ _ _ _ H0 Hb). cbv zeta.
      rewrite Hfetched, Nat.eqb_refl.
      rewrite (IH fuel i _ maxFiles); trivial.
      * unfold after_request. cbn [logs sent jars].
        rewrite (Hsent i); [reflexivity | rewrite Hc; lia].
      * now left.
      * apply Hshift; [|rewrite Hc; lia].
        unfold after_request. cbn [sent]. rewrite length_app. reflexivity.
      * cbn in Hfuel. lia.
Qed.

(** In a run of the loop that ends, a fetch that failed in transport is
    the last fetch, and its error is the outcome. *)
Lemma list_loop_failure_is_final (net : remote) (clientPath : string) (fuel : nat) :
  forall i acc fetched s r s',
    list_loop net fuel clientPath i acc fetched s = Some (r, s') ->
    (exists more, sent (env s') = (sent (env s) ++ more)%list)
    /\ forall k rq e,
         nth_error (sent (env s')) (List.length (sent (env s)) + k) = Some rq ->
         net (List.length (sent (env s)) + k) rq = Failed e ->
         r = Err e
         /\ List.length (sent (env s')) = List.length (sent (env s)) + k + 1.
Proof.
  induction fuel as [|fuel IH]; intros i acc fetched s r s' H; [discriminate|].
  cbn [list_loop] in H. unfold in_world, await_request in H.
  set (rq0 := list_options (this s) clientPath i) in *.
  destruct (net (List.length (sent (env s))) rq0) as [res|e0] eqn:Enet.
  - assert (Hstop : forall r0,
      Some (r0, mk_state (this s)
              (mk_world (logs (env s)) (sent (env s) ++ [rq0]) (jars (env s))))
      = Some (r, s') ->
      (exists more, sent (env s') = (sent (env s) ++ more)%list)
      /\ forall k rq e,
           nth_error (sent (env s')) (List.length (sent (env s)) + k) = Some rq ->
           net (List.length (sent (env s)) + k) rq = Failed e ->
           r = Err e
           /\ List.length (sent (env s')) = List.length (sent (env s)) + k + 1).
    { intros r0 E. inversion E; subst. cbn [env sent]. split; [now exists [rq0]|].
      intros k rq e Hk Hf.
      rewrite nth_error_app2 in Hk by lia.
      replace (List.length (sent (env s)) + k - List.length (sent (env s)))
        with k in Hk by lia.
      destruct k as [|k]; [|destruct k; discriminate].
      inversion Hk; subst. rewrite Nat.add_0_r in Hf. congruence. }
    assert (Hnext : forall j acc' fetched',
      list_loop net fuel clientPath j acc' fetched'
        (mk_state (this s)
           (mk_world (logs (env s)) (sent (env s) ++ [rq0]) (jars (env s))))
      = Some (r, s') ->
      (exists more, sent (env s') = (sent (env s) ++ more)%list)
      /\ forall k rq e,
           nth_error (sent (env s')) (List.length (sent (env s)) + k) = Some rq ->
           net (List.length (sent (env s)) + k) rq = Failed e ->
           r = Err e
           /\ List.length (sent (env s')) = List.length (sent (env s)) + k + 1).
    { intros j acc' fetched' E. apply IH in E.
      cbn [env sent] in E. destruct E as [(more & Hmore) Hlater].
      split; [exists (rq0 :: more); now rewrite Hmore, <- app_assoc|].
      intros k rq e Hk Hf. destruct k as [|k].
      - exfalso. rewrite Hmore, <- app_assoc in Hk.
        rewrite nth_error_app2 in Hk by lia.
        replace (List.length (sent (env s)) + 0 - List.length (sent (env s)))
          with 0 in Hk by lia.
        cbn in Hk. inversion Hk; subst.
        rewrite Nat.add_0_r in Hf. congruence.
      - rewrite length_app in Hlater. cbn [List.length] in Hlater.
        destruct (Hlater k rq e) as [Hr Hlen].
        + now replace (List.length (sent (env s)) + 1 + k)
            with (List.length (sent (env s)) + S k) by lia.
        + now replace (List.length (sent (env s)) + 1 + k)
            with (List.length (sent (env s)) + S k) by lia.
        + split; [exact Hr | lia]. }
    destruct (body res) as [[[ns|]]|];
      match type of H with
      | (if ?c then _ else _) = _ => destruct c
      end;
      first [ now apply Hstop in H | now apply Hnext in H ].
  - inversion H; subst. cbn [env sent]. split; [now exists [rq0]|].
    intros k rq e Hk Hf.
    rewrite nth_error_app2 in Hk by lia.
    replace (List.length (sent (env s)) + k - List.length (sent (env s)))
      with k in Hk by lia.
    destruct k as [|k]; [|destruct k; discriminate].
    inversion Hk; subst. rewrite Nat.add_0_r in Hf.
    split; [congruence | cbn [List.length]; rewrite length_app; cbn; lia].
Qed.

(** C5, amended.  Let [list target] resolve to [clientPath].

    (a) If a page fetch of the call fails in transport (the HTTP client
    yields an error, not a response), the call fails with that very error
    and returns no records, whatever came before: the failing fetch may be
    the first, or follow any replies that kept the loop fetching (full
    pages, and responses without a node list after a full page).  The
    pages gathered so far are dropped and no further request is sent.

    (b) In any run of the call that ends, a fetch that failed in transport
    is the last request of the call and its error is the call's
    outcome. *)
Theorem list_fails_on_transport_error (net : remote) (s : session_state)
    (target clientPath : string)
    (Hpath : PathPosix.join [Some (workingDir (this s)); Some target]
             = Ok clientPath) :
  (forall earlier e fuel,
      keeps_fetching earlier ->
      answers net s clientPath (earlier ++ [Failed e]) ->
      List.length earlier < fuel ->
      exists s',
        list_ net fuel (Some target) s = Some (Err e, s')
        /\ sent (env s')
           = (sent (env s)
              ++ fetch_requests s clientPath (earlier ++ [Failed e]))%list
        /\ this s' = this s)
  /\ (forall fuel r s' k rq e,
      list_ net fuel (Some target) s = Some (r, s') ->
      nth_error (sent (env s')) (List.length (sent (env s)) + k) = Some rq ->
      net (List.length (sent (env s)) + k) rq = Failed e ->
      r = Err e
      /\ List.length (sent (env s')) = List.length (sent (env s)) + k + 1).
Proof.
  split.
  - intros earlier e fuel [Hall Hhead] Hnet Hfuel.
    rewrite (list_enters_loop _ _ _ _ _ Hpath). unfold logged.
    rewrite (list_loop_fails net (this s) clientPath e earlier fuel 0 [] 0);
      trivial.
    + eexists. split; [reflexivity|]. split; [|reflexivity].
      unfold fetch_requests. cbn [env sent].
      rewrite length_app, Nat.add_comm. reflexivity.
    + now right.
  - intros fuel r s' k rq e H Hk Hf.
    rewrite (list_enters_loop _ _ _ _ _ Hpath) in H.
    apply list_loop_failure_is_final in H. destruct H as [_ H].
    cbn [logged env sent] in H. now apply (H k rq e).
Qed.

Lemma script_answers (replies : list reply) (s : session_state)
    (clientPath : string) :
  sent (env s) = [] ->
  answers (script replies) s clientPath replies.
Proof.
  intros Hs k r Hk. rewrite Hs. cbn [List.length Nat.add]. unfold script.
  now apply nth_error_nth.
Qed.

Lemma list_fails_on_transport_error_witness :
  exists s',
    list_ (script [page (repeat sample_entry 100);
                   Responded (mk_response 500 [] None);
                   Failed (TransportError "ECONNRESET")])
      3 (Some "docs") (session_at "/")
    = Some (Err (TransportError "ECONNRESET"), s')
    /\ sent (env s')
       = (sent (env (session_at "/"))
          ++ fetch_requests (session_at "/") "/docs"
               ([page (repeat sample_entry 100);
                 Responded (mk_response 500 [] None)]
                ++ [Failed (TransportError "ECONNRESET")]))%list
    /\ this s' = this (session_at "/").
Proof.
  apply (proj1 (list_fails_on_transport_error
                  (script [page (repeat sample_entry 100);
                           Responded (mk_response 500 [] None);
                           Failed (TransportError "ECONNRESET")])
                  (session_at "/") "docs" "/docs" eq_refl)
           [page (repeat sample_entry 100); Responded (mk_response 500 [] None)]
           (TransportError "ECONNRESET") 3).
  - split.
    + constructor.
      * left. exists (repeat sample_entry 100). split; [reflexivity|].
        now exists 200%Z, [].
      * constructor; [|constructor].
        right. exists (mk_response 500 [] None). split; [reflexivity | now left].
    + exists (repeat sample_entry 100). split; [reflexivity|].
      now exists 200%Z, [].
  - now apply script_answers.
  - cbn. lia.
Defined.

(** ** Login *)

Section SplitUsername.

Local Open Scope Z_scope.

Lemma index_from_skip (c : ascii) (s t : string) :
  forall i, 0 <= i ->
    Js.index_from c s i = -1 ->
    Js.index_from c (s ++ t) i = Js.index_from c t (i + Js.len s).
Proof.
  unfold Js.len.
  induction s as [|a s IH]; intros i Hi H; cbn [append Js.index_from String.length] in *.
  - now rewrite Z.add_0_r.
  - destruct (Ascii.eqb a c); [lia|].
    rewrite IH by (trivial; lia). f_equal. lia.
Qed.

(** The first ["@"] of [share@domain] is right after the share. *)
Lemma indexOf_at (share domain : string) :
  Js.indexOf share "@"%char = -1 ->
  Js.indexOf (share ++ "@" ++ domain) "@"%char = Js.len share.
Proof.
  intros H. unfold Js.indexOf in *.
  rewrite index_from_skip by (trivial; lia).
  reflexivity.
Qed.

Lemma substring_prefix (s t : string) :
  substring 0 (String.length s) (s ++ t) = s.
Proof.
  induction s as [|a s IH]; cbn.
  - now destruct t.
  - now rewrite IH.
Qed.

Lemma substring_whole (s : string) : substring 0 (String.length s) s = s.
Proof. induction s as [|a s IH]; cbn; [|rewrite IH]; reflexivity. Qed.

Lemma substring_suffix (s t : string) :
  substring (String.length s) (String.length t) (s ++ t) = t.
Proof.
  induction s as [|a s IH]; cbn [append String.length substring].
  - apply substring_whole.
  - exact IH.
Qed.

Lemma length_append (s t : string) :
  String.length (s ++ t) = (String.length s + String.length t)%nat.
Proof. induction s as [|a s IH]; cbn; [|rewrite IH]; reflexivity. Qed.

(** [create] splits [share@domain] at the first ["@"]. *)
Lemma base_url_of_identity (share domain : string) :
  Js.indexOf share "@"%char = -1 ->
  base_url_of (share ++ "@" ++ domain)
  = ("https://" ++ domain ++ "/public-share/" ++ share ++ "/")%string.
Proof.
  intros H. unfold base_url_of. rewrite (indexOf_at _ _ H).
  assert (Hlen : Js.len (share ++ "@" ++ domain)
                 = Js.len share + 1 + Js.len domain).
  { unfold Js.len. rewrite length_append. cbn [append String.length]. lia. }
  assert (Hshare : Js.substr (share ++ "@" ++ domain) 0 (Some (Js.len share))
                   = share).
  { unfold Js.substr. rewrite Hlen. cbn [Z.ltb Z.compare].
    assert (0 <= Js.len share) by (unfold Js.len; lia).
    assert (0 <= Js.len domain) by (unfold Js.len; lia).
    rewrite (Z.min_l 0) by lia. rewrite Z.max_l, Z.min_l by lia.
    unfold Js.len. rewrite Nat2Z.id. apply substring_prefix. }
  assert (Hdomain : Js.substr (share ++ "@" ++ domain) (Js.len share + 1) None
                    = domain).
  { unfold Js.substr. rewrite Hlen.
    assert (0 <= Js.len share) by (unfold Js.len; lia).
    assert (0 <= Js.len domain) by (unfold Js.len; lia).
    replace (Js.len share + 1 <? 0) with false by (symmetry; apply Z.ltb_ge; lia).
    rewrite Z.min_l by lia.
    replace (Js.len share + 1 + Js.len domain - (Js.len share + 1))
      with (Js.len domain) by lia.
    replace (Z.to_nat (Js.len share + 1)) with (String.length (share ++ "@"))
      by (rewrite length_append; unfold Js.len; cbn [String.length]; lia).
    unfold Js.len. rewrite Nat2Z.id.
    replace (share ++ "@" ++ domain)%string with ((share ++ "@") ++ domain)%string.
    - apply substring_suffix.
    - clear. induction share as [|a s IH]; cbn; [|rewrite IH]; reflexivity. }
  rewrite Hshare, Hdomain. reflexivity.
Qed.

End SplitUsername.

(** The hook on a login request that got a response. *)
Lemma on_login_responded (net : remote) (data : login_data) (w : world)
    (res : http_response) :
  net (List.length (sent w))
      (login_options (base_url_of (login_username data)) (jars w)
         (login_password data))
  = Responded res ->
  on_login net data w
  = (if (statusCode res =? 200)%Z
     then Resolve (new_StackFileSystem (login_connection data)
                     (base_url_of (login_username data))
                     (header (headers res) "csrf-token") (jars w))
     else Reject (Error ("STACK login failed for user '"
                         ++ login_username data ++ "'.")),
     after_login w (login_username data) (login_password data)).
Proof.
  intros H. unfold on_login, create.
  cbv [bind logger_info modify request_jar await_request ret throw].
  cbn [sent jars logs]. rewrite H.
  destruct (statusCode res =? 200)%Z; reflexivity.
Qed.

(** C6.  Take an identity [share@domain] (no ["@"] in the share) and any
    password, and let the login request get a response.  If its status is
    200 the hook resolves with a session for
    [https://domain/public-share/share/] that holds the CSRF token of the
    response and the cookie jar of the login and starts at ["/"].  With any
    other status it rejects with the error "STACK login failed for user
    'share@domain'." and hands out no session. *)
Theorem login_succeeds_only_on_200 (net : remote) (conn : FtpConnection)
    (share domain password : string) (w : world) (res : http_response) :
  let username := (share ++ "@" ++ domain)%string in
  let url := ("https://" ++ domain ++ "/public-share/" ++ share ++ "/")%string in
  Js.indexOf share "@"%char = (-1)%Z ->
  net (List.length (sent w)) (login_options url (jars w) password)
  = Responded res ->
  (statusCode res = 200%Z ->
     on_login net (mk_login conn username password) w
     = (Resolve {| connection := conn;
                   root := "/";
                   workingDir := "/";
                   baseUrl := url;
                   csrfToken := header (headers res) "csrf-token";
                   cookieJar := jars w |},
        after_login w username password))
  /\ (statusCode res <> 200%Z ->
     on_login net (mk_login conn username password) w
     = (Reject (Error ("STACK login failed for user '" ++ username ++ "'.")),
        after_login w username password)).
Proof.
  intros username url Hshare Hnet.
  assert (Hurl : base_url_of username = url)
    by (apply base_url_of_identity; exact Hshare).
  assert (H := on_login_responded net (mk_login conn username password) w res).
  cbn [login_username login_password login_connection] in H.
  rewrite Hurl in H. specialize (H Hnet).
  split; intros Hstatus; rewrite H.
  - rewrite Hstatus. reflexivity.
  - apply Z.eqb_neq in Hstatus. rewrite Hstatus. reflexivity.
Qed.

Lemma login_succeeds_only_on_200_witness :
  let net := script [Responded (mk_response 200 [("csrf-token", "tok")] None)] in
  let data := mk_login (mk_connection "c0") "docs@stack.example.com" "secret" in
  on_login net data empty_world
  = (Resolve {| connection := mk_connection "c0";
                root := "/";
                workingDir := "/";
                baseUrl := "https://stack.example.com/public-share/docs/";
                csrfToken := Some "tok";
                cookieJar := 0 |},
     after_login empty_world "docs@stack.example.com" "secret").
Proof.
  refine (proj1 (login_succeeds_only_on_200
            (script [Responded (mk_response 200 [("csrf-token", "tok")] None)])
            (mk_connection "c0") "docs" "stack.example.com" "secret"
            empty_world (mk_response 200 [("csrf-token", "tok")] None)
            _ _) _); reflexivity.
Defined.

(** * Further properties *)

(** ** The name of a listed entry *)

Section LastSlash.

Local Open Scope Z_scope.

Variable c : ascii.

Lemma index_from_none (s : string) :
  forall i, 0 <= i -> Js.index_from c s i = -1 ->
  forall j, Js.index_from c s j = -1.
Proof.
  induction s as [|a s IH]; intros i Hi H j; cbn [Js.index_from] in *; trivial.
  destruct (Ascii.eqb a c); [lia|].
  apply (IH (i + 1)); trivial; lia.
Qed.

Lemma last_index_from_app (s t : string) :
  forall i last,
    Js.last_index_from c (s ++ t) i last
    = Js.last_index_from c t (i + Js.len s) (Js.last_index_from c s i last).
Proof.
  unfold Js.len.
  induction s as [|a s IH]; intros i last;
    cbn [append Js.last_index_from String.length].
  - now rewrite Z.add_0_r.
  - rewrite IH. f_equal. lia.
Qed.

Lemma last_index_from_none (s : string) :
  Js.index_from c s 0 = -1 ->
  forall i last, Js.last_index_from c s i last = last.
Proof.
  induction s as [|a s IH]; intros H i last;
    cbn [Js.index_from Js.last_index_from] in *; trivial.
  destruct (Ascii.eqb a c); [discriminate|].
  apply IH. apply (index_from_none s (0 + 1)); trivial; lia.
Qed.

(** The last [c] of [dir ++ c :: leaf], when [leaf] has none, is the one
    written out. *)
Lemma lastIndexOf_app (dir leaf : string) :
  Js.indexOf leaf c = -1 ->
  Js.lastIndexOf (dir ++ String c leaf) c = Js.len dir.
Proof.
  intros H. unfold Js.lastIndexOf, Js.indexOf in *.
  rewrite last_index_from_app. cbn [Js.last_index_from].
  rewrite Ascii.eqb_refl. rewrite last_index_from_none by exact H. lia.
Qed.

(** [substr] from right after [dir ++ c] to the end. *)
Lemma substr_after (dir rest : string) :
  Js.substr (dir ++ String c rest) (Js.len dir + 1) None = rest.
Proof.
  unfold Js.substr.
  assert (Hlen : Js.len (dir ++ String c rest) = Js.len dir + 1 + Js.len rest).
  { unfold Js.len. rewrite length_append. cbn [String.length]. lia. }
  rewrite Hlen.
  assert (0 <= Js.len dir) by (unfold Js.len; lia).
  assert (0 <= Js.len rest) by (unfold Js.len; lia).
  replace (Js.len dir + 1 <? 0) with false by (symmetry; apply Z.ltb_ge; lia).
  rewrite Z.min_l by lia.
  replace (Js.len dir + 1 + Js.len rest - (Js.len dir + 1)) with (Js.len rest) by lia.
  unfold Js.len. rewrite Nat2Z.id.
  replace (Z.to_nat (Z.of_nat (String.length dir) + 1)) with (S (String.length dir)) by lia.
  clear. induction dir as [|a d IH]; cbn [append String.length substring].
  - apply substring_whole.
  - exact IH.
Qed.

(** A string has no [c], or splits at its last [c]. *)
Lemma split_at_last (s : string) :
  Js.indexOf s c = -1
  \/ exists dir leaf, s = (dir ++ String c leaf)%string /\ Js.indexOf leaf c = -1.
Proof.
  unfold Js.indexOf.
  induction s as [|a s IH]; [now left|].
  destruct IH as [Hnone | (dir & leaf & -> & Hleaf)].
  - cbn [Js.index_from]. destruct (Ascii.eqb_spec a c) as [-> | Hac].
    + right. exists ""%string, s. split; trivial.
    + left. apply (index_from_none s 0); trivial; lia.
  - right. exists (String a dir), leaf. split; trivial.
Qed.

End LastSlash.

(** X1.  The name of a listed entry is the part of its path after the
    last slash: whatever the path, it is some prefix followed by the name,
    the name holds no slash, and the prefix is empty (the path has no
    slash and is the name) or ends with a slash. *)
Theorem stats_name_is_last_segment (stat : Api.StackApiStats) :
  exists prefix,
    Api.path stat = (prefix ++ StackStats.name (StackStats.new stat))%string
    /\ Js.indexOf (StackStats.name (StackStats.new stat)) "/"%char = (-1)%Z
    /\ (prefix = ""%string
        \/ exists dir, prefix = (dir ++ "/")%string).
Proof.
  unfold StackStats.new. cbn [StackStats.name].
  destruct (split_at_last "/"%char (Api.path stat))
    as [Hnone | (dir & leaf & Hpath & Hleaf)].
  - exists ""%string. unfold Js.lastIndexOf.
    rewrite last_index_from_none by exact Hnone.
    assert (Hname : Js.substr (Api.path stat) (-1 + 1) None = Api.path stat).
    { unfold Js.substr. cbn [Z.add Z.ltb Z.compare Z.opp Z.pos_sub].
      assert (0 <= Js.len (Api.path stat))%Z by (unfold Js.len; lia).
      rewrite Z.min_l by lia. rewrite Z.sub_0_r.
      unfold Js.len. rewrite Nat2Z.id. apply substring_whole. }
    rewrite Hname. auto.
  - exists (dir ++ "/")%string. rewrite Hpath.
    rewrite lastIndexOf_app by exact Hleaf. rewrite substr_after.
    repeat split; trivial.
    + clear. induction dir as [|a d IH]; cbn; [|rewrite <- IH]; reflexivity.
    + right. now exists dir.
Qed.

(** X2.  For an entry whose path is [dir/leaf], where [leaf] holds no
    slash, the name is [leaf]; this includes the empty name of a path
    that ends with a slash. *)
Theorem stats_name_of_leaf (stat : Api.StackApiStats) (dir leaf : string) :
  Api.path stat = (dir ++ "/" ++ leaf)%string ->
  Js.indexOf leaf "/"%char = (-1)%Z ->
  StackStats.name (StackStats.new stat) = leaf.
Proof.
  intros Hpath Hleaf. unfold StackStats.new. cbn [StackStats.name].
  rewrite Hpath. cbn [append].
  rewrite lastIndexOf_app by exact Hleaf. apply substr_after.
Qed.

Lemma stats_name_of_leaf_witness :
  StackStats.name (StackStats.new sample_entry) = "readme.txt".
Proof.
  apply (stats_name_of_leaf sample_entry "/docs" "readme.txt"); reflexivity.
Defined.

(** ** More on login *)

(** A string that holds [c] splits at its first [c]. *)
Lemma split_at_first (c : ascii) (s : string) :
  Js.indexOf s c <> (-1)%Z ->
  exists before rest,
    s = (before ++ String c rest)%string /\ Js.indexOf before c = (-1)%Z.
Proof.
  unfold Js.indexOf.
  induction s as [|a s IH]; intros H; [now contradiction H|].
  cbn [Js.index_from] in H.
  destruct (Ascii.eqb_spec a c) as [-> | Hac].
  - now exists ""%string, s.
  - destruct IH as (before & rest & -> & Hb).
    + intros Hs. apply H. apply (index_from_none c s 0); trivial; lia.
    + exists (String a before), rest. split; trivial.
      cbn [Js.index_from]. destruct (Ascii.eqb_spec a c); [contradiction|].
      apply (index_from_none c before 0); trivial; lia.
Qed.

(** [substr] of the first [len before] characters. *)
Lemma substr_before (before rest : string) :
  Js.substr (before ++ rest) 0 (Some (Js.len before)) = before.
Proof.
  unfold Js.substr. cbn [Z.ltb Z.compare].
  assert (Hlen : Js.len (before ++ rest) = (Js.len before + Js.len rest)%Z)
    by (unfold Js.len; rewrite length_append; lia).
  rewrite Hlen.
  assert (0 <= Js.len before)%Z by (unfold Js.len; lia).
  assert (0 <= Js.len rest)%Z by (unfold Js.len; lia).
  rewrite (Z.min_l 0) by lia. rewrite Z.max_l, Z.min_l by lia.
  unfold Js.len. rewrite Nat2Z.id. apply substring_prefix.
Qed.

(** X3.  The cut [create] makes in a user name that holds an ["@"] loses
    nothing: the share (before the first ["@"]) holds no ["@"], and share,
    ["@"] and domain put together give the user name back. *)
Theorem username_split_lossless (username : string) :
  let at_ := Js.indexOf username "@"%char in
  let share := Js.substr username 0 (Some at_) in
  let domain := Js.substr username (at_ + 1) None in
  at_ <> (-1)%Z ->
  (share ++ "@" ++ domain)%string = username
  /\ Js.indexOf share "@"%char = (-1)%Z
  /\ base_url_of username
     = ("https://" ++ domain ++ "/public-share/" ++ share ++ "/")%string.
Proof.
  intros at_ share domain Hat.
  destruct (split_at_first "@"%char username Hat) as (b & r & Hu & Hb).
  assert (Hidx : at_ = Js.len b).
  { subst at_. rewrite Hu. apply (indexOf_at b r Hb). }
  assert (Hshare : share = b).
  { subst share. rewrite Hidx, Hu. apply substr_before. }
  assert (Hdomain : domain = r).
  { subst domain. rewrite Hidx, Hu. apply substr_after. }
  rewrite Hshare, Hdomain. repeat split; trivial.
  - now rewrite Hu.
  - unfold base_url_of. fold at_. fold share. fold domain.
    now rewrite Hshare, Hdomain.
Qed.

Lemma username_split_lossless_witness :
  ("docs" ++ "@" ++ "stack.example.com@x")%string = "docs@stack.example.com@x"
  /\ Js.indexOf "docs" "@"%char = (-1)%Z
  /\ base_url_of "docs@stack.example.com@x"
     = "https://stack.example.com@x/public-share/docs/".
Proof.
  apply (username_split_lossless "docs@stack.example.com@x"). discriminate.
Defined.

(** X4.  A user name without ["@"] is not refused: the share is empty and
    the whole name is taken as the domain, so the login goes to
    [https://<name>/public-share//]. *)
Theorem base_url_without_at (username : string) :
  Js.indexOf username "@"%char = (-1)%Z ->
  base_url_of username
  = ("https://" ++ username ++ "/public-share/" ++ "" ++ "/")%string.
Proof.
  intros H. unfold base_url_of. rewrite H.
  assert (Hshare : Js.substr username 0 (Some (-1)%Z) = ""%string).
  { unfold Js.substr. cbn [Z.ltb Z.compare Z.max].
    assert (0 <= Js.len username)%Z by (unfold Js.len; lia).
    rewrite (Z.min_l 0) by lia. rewrite Z.sub_0_r, Z.min_l by lia.
    cbn. now destruct username. }
  assert (Hdomain : Js.substr username (-1 + 1) None = username).
  { unfold Js.substr. cbn [Z.add Z.ltb Z.compare Z.opp Z.pos_sub].
    assert (0 <= Js.len username)%Z by (unfold Js.len; lia).
    rewrite Z.min_l by lia. rewrite Z.sub_0_r.
    unfold Js.len. rewrite Nat2Z.id. apply substring_whole. }
  now rewrite Hshare, Hdomain.
Qed.

Lemma base_url_without_at_witness :
  base_url_of "stack.example.com"
  = "https://stack.example.com/public-share//".
Proof. apply (base_url_without_at "stack.example.com"). reflexivity. Defined.

(** X5.  Whatever the remote does, a login attempt leaves exactly this
    behind: one log record, holding the action and the user name and not
    the password; one cookie jar; one request, the [POST] of the password
    to [info/] under the base URL of the user name. *)
Theorem create_footprint (net : remote) (conn : FtpConnection)
    (username password : string) (w : world) :
  snd (create net conn username password w)
  = mk_world
      (logs w ++ [[("action", VStr "create"); ("username", VStr username)]])
      (sent w ++ [{| rq_baseUrl := base_url_of username;
                     rq_url := "info/";
                     rq_jar := jars w;
                     rq_method := "POST";
                     rq_json := false;
                     rq_form := [("password", VStr password)];
                     rq_qs := [];
                     rq_headers := [] |}])
      (S (jars w)).
Proof.
  unfold create.
  cbv [bind logger_info modify request_jar await_request ret throw].
  cbn [sent jars logs].
  destruct (net _ _) as [res|e]; [|reflexivity].
  destruct (negb _); reflexivity.
Qed.

(** X6.  When the login request fails in transport, the hook rejects with
    the error of the HTTP client as it is (not with the "login failed"
    error), and no session is made. *)
Theorem login_transport_error_rejects (net : remote) (data : login_data)
    (w : world) (e : js_error) :
  net (List.length (sent w))
      (login_options (base_url_of (login_username data)) (jars w)
         (login_password data))
  = Failed e ->
  on_login net data w
  = (Reject e, after_login w (login_username data) (login_password data)).
Proof.
  intros H. unfold on_login, create.
  cbv [bind logger_info modify request_jar await_request ret throw].
  cbn [sent jars logs]. now rewrite H.
Qed.

Lemma login_transport_error_rejects_witness :
  on_login (script []) (mk_login (mk_connection "c0") "docs@h" "pw") empty_world
  = (Reject (TransportError "ECONNREFUSED"),
     after_login empty_world "docs@h" "pw").
Proof.
  apply (login_transport_error_rejects (script [])
           (mk_login (mk_connection "c0") "docs@h" "pw") empty_world).
  reflexivity.
Defined.

(** ** Absolute paths *)

Lemma absolute_inv (p : string) :
  absolute p = true -> exists rest, p = String "/" rest.
Proof.
  destruct p as [|[[] [] [] [] [] [] [] []] rest]; try discriminate.
  intros _. now exists rest.
Qed.

(** ** [chdir], [read] and [write] in general *)

(** X7.  [chdir] on a string never fails and sends nothing: it returns
    the target joined to the root, makes it the working directory, which
    [currentDirectory] then reports, and logs it; nothing else changes. *)
Theorem chdir_footprint (s : session_state) (target : string) :
  exists p,
    PathPosix.join [Some (root (this s)); Some target] = Ok p
    /\ chdir (Some target) s
       = (Ok p,
          mk_state
            {| connection := connection (this s);
               root := root (this s);
               workingDir := p;
               baseUrl := baseUrl (this s);
               csrfToken := csrfToken (this s);
               cookieJar := cookieJar (this s) |}
            (mk_world (logs (env s) ++ [path_record s "cwd" p])
               (sent (env s)) (jars (env s))))
    /\ fst (currentDirectory (snd (chdir (Some target) s))) = Ok p.
Proof.
  destruct (join_strings (root (this s)) target) as [p Hp].
  exists p. split; [exact Hp|].
  run_method. unfold currentDirectory. run_method. rewrite Hp. cbn. auto.
Qed.

(** X8.  A run of [chdir] calls ends where its last call alone would have
    ended: the directories reached on the way play no part. *)
Theorem chdir_run_ends_at_last_target (targets : list string) (t : string)
    (s : session_state) :
  workingDir (this (snd (chdir_all (targets ++ [t]) s)))
  = workingDir (this (snd (chdir (Some t) s))).
Proof.
  destruct (chdir_all_last targets t s) as (p & Hp & Hall).
  destruct (chdir_joins_root s t) as (q & Hq & _ & Hone & _).
  rewrite Hall, Hone. congruence.
Qed.

(** X9.  [read] on a string never fails.  It logs the resolved path
    and sends one request, the [POST] to [download] with the CSRF token
    and the target joined to the working directory in its form, and
    returns the stream of that request; the session is as before. *)
Theorem read_footprint (s : session_state) (target : string) :
  exists p,
    PathPosix.join [Some (workingDir (this s)); Some target] = Ok p
    /\ read target s
       = (Ok {| rq_baseUrl := baseUrl (this s);
                rq_url := "download";
                rq_jar := cookieJar (this s);
                rq_method := "POST";
                rq_json := false;
                rq_form := [("CSRF-Token", of_option (csrfToken (this s)));
                            ("paths[]", VStr p)];
                rq_qs := [];
                rq_headers := [] |},
          mk_state (this s)
            (mk_world (logs (env s) ++ [path_record s "read" p])
               (sent (env s) ++ [download_options (this s) p])
               (jars (env s)))).
Proof.
  destruct (join_strings (workingDir (this s)) target) as [p Hp].
  exists p. split; [exact Hp|].
  run_method. rewrite Hp. reflexivity.
Qed.

(** X10.  [write] on a string never fails.  It logs the resolved path
    and sends one request, the [PUT] to [upload] followed by the resolved
    path, with the CSRF token as a header, and returns the stream into that
    request together with the resolved path; the session is as before. *)
Theorem write_footprint (s : session_state) (target : string) :
  exists p,
    PathPosix.join [Some (workingDir (this s)); Some target] = Ok p
    /\ let upload :=
         {| rq_baseUrl := baseUrl (this s);
            rq_url := "upload" ++ p;
            rq_jar := cookieJar (this s);
            rq_method := "PUT";
            rq_json := false;
            rq_form := [];
            rq_qs := [];
            rq_headers := [("CSRF-Token", of_option (csrfToken (this s)))] |} in
       write target s
       = (Ok (upload, p),
          mk_state (this s)
            (mk_world (logs (env s) ++ [path_record s "write" p])
               (sent (env s) ++ [upload]) (jars (env s)))).
Proof.
  destruct (join_strings (workingDir (this s)) target) as [p Hp].
  exists p. split; [exact Hp|].
  run_method. rewrite Hp. reflexivity.
Qed.

(** ** [list] against an arbitrary remote *)

(** The requests of the loop, whatever the remote answers and whenever
    the loop ends. *)
Lemma list_loop_requests (net : remote) (clientPath : string) (fuel : nat) :
  forall i acc fetched s r s',
    list_loop net fuel clientPath i acc fetched s = Some (r, s') ->
    exists ks,
      ks <> []
      /\ climbs i ks = true
      /\ sent (env s')
         = (sent (env s) ++ map (list_options (this s) clientPath) ks)%list
      /\ logs (env s') = logs (env s)
      /\ jars (env s') = jars (env s).
Proof.
  induction fuel as [|fuel IH]; intros i acc fetched s r s' H; [discriminate|].
  cbn [list_loop] in H. unfold in_world, await_request in H.
  assert (Hstop : forall r0,
    Some (r0, mk_state (this s)
            (mk_world (logs (env s))
               (sent (env s) ++ [list_options (this s) clientPath i])
               (jars (env s)))) = Some (r, s') ->
    exists ks, ks <> [] /\ climbs i ks = true
      /\ sent (env s')
         = (sent (env s) ++ map (list_options (this s) clientPath) ks)%list
      /\ logs (env s') = logs (env s) /\ jars (env s') = jars (env s)).
  { intros r0 E. inversion E; subst. exists [i]. cbn [climbs map env sent logs jars].
    rewrite Nat.eqb_refl. repeat split; trivial. discriminate. }
  assert (Hnext : forall j acc' fetched',
    (j = i \/ j = i + 1) ->
    list_loop net fuel clientPath j acc' fetched'
      (mk_state (this s)
         (mk_world (logs (env s))
            (sent (env s) ++ [list_options (this s) clientPath i])
            (jars (env s)))) = Some (r, s') ->
    exists ks, ks <> [] /\ climbs i ks = true
      /\ sent (env s')
         = (sent (env s) ++ map (list_options (this s) clientPath) ks)%list
      /\ logs (env s') = logs (env s) /\ jars (env s') = jars (env s)).
  { intros j acc' fetched' Hj E.
    apply IH in E. destruct E as (ks & Hne & Hc & Hs & Hl & Hj').
    cbn [env this sent logs jars] in *.
    exists (i :: ks). cbn [climbs map]. rewrite Nat.eqb_refl.
    repeat split; trivial.
    - discriminate.
    - destruct Hj as [-> | ->]; rewrite Hc; cbn; trivial. apply orb_true_r.
    - rewrite Hs, <- app_assoc. reflexivity. }
  destruct (net _ _) as [res|e].
  - destruct (body res) as [[[ns|]]|];
      match type of H with
      | (if ?c then _ else _) = _ => destruct c
      end;
      first [ now apply Hstop in H
            | apply Hnext in H; [exact H | auto] ].
  - now apply Hstop in H.
Qed.

(** X11.  Whatever the remote answers, a [list] call that ends (with a
    listing or with an error) has sent listing requests only, all for the
    target joined to the working directory: at least one, the first for
    page 0, each later one for the same page as the one before or for the
    next.  It has logged the resolved path once, and has left the session,
    its working directory included, as it was. *)
Theorem list_footprint (net : remote) (fuel : nat) (target : string)
    (s : session_state) (r : result (list StackStats.t)) (s' : session_state) :
  list_ net fuel (Some target) s = Some (r, s') ->
  exists p ks,
    PathPosix.join [Some (workingDir (this s)); Some target] = Ok p
    /\ ks <> [] /\ climbs 0 ks = true
    /\ sent (env s')
       = (sent (env s) ++ map (list_options (this s) p) ks)%list
    /\ logs (env s') = (logs (env s) ++ [path_record s "list" p])%list
    /\ this s' = this s.
Proof.
  intros H.
  destruct (join_strings (workingDir (this s)) target) as [p Hp].
  rewrite (list_enters_loop _ _ _ _ _ Hp) in H.
  assert (Hthis := list_loop_keeps_session _ _ _ _ _ _ _ _ _ H).
  apply list_loop_requests in H.
  destruct H as (ks & Hne & Hc & Hs & Hl & _).
  exists p, ks. cbn [logged env this sent logs] in *. auto 10.
Qed.

Lemma list_footprint_witness :
  exists p ks,
    PathPosix.join [Some (workingDir (this (session_at "/a"))); Some "b"] = Ok p
    /\ ks <> [] /\ climbs 0 ks = true
    /\ [list_options (this (session_at "/a")) "/a/b" 0]
       = ([] ++ map (list_options (this (session_at "/a")) p) ks)%list
    /\ [path_record (session_at "/a") "list" "/a/b"]
       = ([] ++ [path_record (session_at "/a") "list" p])%list
    /\ this (session_at "/a") = this (session_at "/a").
Proof.
  apply (list_footprint empty_folder 1 "b" (session_at "/a") (Ok [])
           (mk_state (this (session_at "/a"))
              (mk_world [path_record (session_at "/a") "list" "/a/b"]
                 [list_options (this (session_at "/a")) "/a/b" 0] 0))).
  reflexivity.
Defined.

(** X12.  If the answer to the first listing request carries no node
    list (no body at all, or a body without [nodes]), whatever its status,
    [list] returns the empty listing after that one request. *)
Theorem list_without_nodes_is_empty (net : remote) (fuel : nat)
    (target clientPath : string) (s : session_state) :
  PathPosix.join [Some (workingDir (this s)); Some target] = Ok clientPath ->
  without_nodes (net (List.length (sent (env s)))
                     (list_options (this s) clientPath 0)) ->
  list_ net (S fuel) (Some target) s
  = Some (Ok [],
          mk_state (this s)
            (mk_world (logs (env s) ++ [path_record s "list" clientPath])
               (sent (env s) ++ [list_options (this s) clientPath 0])
               (jars (env s)))).
Proof.
  intros Hp (res & Hnet & Hbody).
  rewrite (list_enters_loop _ _ _ _ _ Hp). unfold logged.
  rewrite (list_loop_no_nodes net (this s) clientPath fuel 0 [] 0 _ res);
    trivial.
Qed.

Lemma list_without_nodes_is_empty_witness :
  list_ (script [Responded (mk_response 401 [] None)]) 1 (Some "docs")
    (session_at "/")
  = Some (Ok [],
          mk_state (this (session_at "/"))
            (mk_world [path_record (session_at "/") "list" "/docs"]
               [list_options (this (session_at "/")) "/docs" 0] 0)).
Proof.
  apply (list_without_nodes_is_empty
           (script [Responded (mk_response 401 [] None)]) 0 "docs" "/docs"
           (session_at "/")).
  - reflexivity.
  - exists (mk_response 401 [] None). split; [reflexivity | now left].
Defined.

(** X13.  If the first page comes back full (100 records) and every
    later answer is a response without a body, [list] never returns: it
    asks for the second page again and again, and no amount of fuel ends
    the loop. *)
Theorem list_hangs_after_full_page (net : remote) (target clientPath : string)
    (s : session_state) (first : list Api.StackApiStats) (res : http_response) :
  PathPosix.join [Some (workingDir (this s)); Some target] = Ok clientPath ->
  List.length first = 100 ->
  serves_page (net (List.length (sent (env s)))
                   (list_options (this s) clientPath 0)) first ->
  body res = None ->
  (forall n rq, List.length (sent (env s)) < n -> net n rq = Responded res) ->
  forall fuel, list_ net fuel (Some target) s = None.
Proof.
  intros Hp Hlen (sc & hs & Hfirst) Hbody Hlater fuel.
  rewrite (list_enters_loop _ _ _ _ _ Hp). unfold logged.
  destruct fuel as [|fuel]; [reflexivity|].
  rewrite (list_loop_nodes net (this s) clientPath fuel 0 [] 0
             (mk_world (logs (env s) ++ [path_record s "list" clientPath])
                (sent (env s)) (jars (env s)))
             sc hs first Hfirst).
  cbv zeta.
  rewrite Hlen. change (100 =? maxFiles) with true. cbv iota.
  change 100 with maxFiles.
  apply (list_loop_spins net (this s) clientPath
           (S (List.length (sent (env s)))) _ _ res Hbody).
  - intros n rq Hn. apply Hlater. lia.
  - unfold after_request. cbn [sent]. rewrite length_app. cbn [List.length]. lia.
Qed.

Lemma list_hangs_after_full_page_witness :
  list_ (fun n _ => match n with
                    | 0 => page (repeat sample_entry 100)
                    | _ => Responded (mk_response 502 [] None)
                    end)
    1000 (Some "docs") (session_at "/")
  = None.
Proof.
  apply (list_hangs_after_full_page _ "docs" "/docs" (session_at "/")
           (repeat sample_entry 100) (mk_response 502 [] None)).
  - reflexivity.
  - reflexivity.
  - now exists 200%Z, [].
  - reflexivity.
  - intros [|n] rq Hn; [cbn in Hn; lia | reflexivity].
Defined.

(** ** From login to the first transfer *)

(** X14.  After a login answered with status 200, the session starts at
    ["/"], and what it sends carries the login's credentials: [read] and
    [write] use the base URL cut from the user name and the cookie jar of
    the login, and pass on as CSRF token the [csrf-token] header of the
    login response, which is [undefined] when the response had no such
    header (the login succeeds all the same). *)
Theorem transfers_carry_login (net : remote) (conn : FtpConnection)
    (username password target : string) (w : world) (res : http_response) :
  net (List.length (sent w))
      (login_options (base_url_of username) (jars w) password)
  = Responded res ->
  statusCode res = 200%Z ->
  exists fs p,
    on_login net (mk_login conn username password) w
    = (Resolve fs, after_login w username password)
    /\ PathPosix.join [Some "/"; Some target] = Ok p
    /\ fst (read target (mk_state fs (after_login w username password)))
       = Ok {| rq_baseUrl := base_url_of username;
               rq_url := "download";
               rq_jar := jars w;
               rq_method := "POST";
               rq_json := false;
               rq_form := [("CSRF-Token",
                            of_option (header (headers res) "csrf-token"));
                           ("paths[]", VStr p)];
               rq_qs := [];
               rq_headers := [] |}
    /\ fst (write target (mk_state fs (after_login w username password)))
       = Ok ({| rq_baseUrl := base_url_of username;
                rq_url := "upload" ++ p;
                rq_jar := jars w;
                rq_method := "PUT";
                rq_json := false;
                rq_form := [];
                rq_qs := [];
                rq_headers := [("CSRF-Token",
                                of_option (header (headers res) "csrf-token"))] |},
             p).
Proof.
  intros Hnet Hstatus.
  assert (H := on_login_responded net (mk_login conn username password) w res Hnet).
  cbn [login_username login_password login_connection] in H.
  rewrite Hstatus in H. cbn [Z.eqb Pos.eqb] in H.
  destruct (join_strings "/" target) as [p Hp].
  eexists. exists p. split; [exact H|]. split; [exact Hp|].
  run_method. cbn [new_StackFileSystem this env workingDir]. rewrite Hp.
  split; reflexivity.
Qed.

Lemma transfers_carry_login_witness :
  exists fs p,
    on_login (script [Responded (mk_response 200 [] None)])
      (mk_login (mk_connection "c0") "docs@h" "pw") empty_world
    = (Resolve fs, after_login empty_world "docs@h" "pw")
    /\ PathPosix.join [Some "/"; Some "a.txt"] = Ok p
    /\ fst (read "a.txt" (mk_state fs (after_login empty_world "docs@h" "pw")))
       = Ok {| rq_baseUrl := base_url_of "docs@h";
               rq_url := "download";
               rq_jar := jars empty_world;
               rq_method := "POST";
               rq_json := false;
               rq_form := [("CSRF-Token",
                            of_option
                              (header (headers (mk_response 200 [] None))
                                 "csrf-token"));
                           ("paths[]", VStr p)];
               rq_qs := [];
               rq_headers := [] |}
    /\ fst (write "a.txt" (mk_state fs (after_login empty_world "docs@h" "pw")))
       = Ok ({| rq_baseUrl := base_url_of "docs@h";
                rq_url := "upload" ++ p;
                rq_jar := jars empty_world;
                rq_method := "PUT";
                rq_json := false;
                rq_form := [];
                rq_qs := [];
                rq_headers := [("CSRF-Token",
                                of_option
                                  (header (headers (mk_response 200 [] None))
                                     "csrf-token"))] |},
             p).
Proof.
  apply (transfers_carry_login (script [Responded (mk_response 200 [] None)])
           (mk_connection "c0") "docs@h" "pw" "a.txt" empty_world
           (mk_response 200 [] None)); reflexivity.
Defined.

(** ** Normal form of resolved paths *)

Section Normalize.

Local Open Scope Z_scope.

Lemma append_assoc (a b c : string) : ((a ++ b) ++ c = a ++ (b ++ c))%string.
Proof. induction a as [|x a IH]; cbn; [|rewrite IH]; reflexivity. Qed.

Lemma append_nil_r (a : string) : (a ++ "" = a)%string.
Proof. induction a as [|x a IH]; cbn; [|rewrite IH]; reflexivity. Qed.

Lemma len_app (a b : string) : Js.len (a ++ b) = Js.len a + Js.len b.
Proof. unfold Js.len. rewrite length_append. lia. Qed.

Lemma len_nonneg (a : string) : 0 <= Js.len a.
Proof. unfold Js.len. lia. Qed.

Lemma len_cons (x : ascii) (a : string) : Js.len (String x a) = 1 + Js.len a.
Proof. unfold Js.len. cbn [String.length]. lia. Qed.

Lemma len_nil : Js.len "" = 0.
Proof. reflexivity. Qed.

Lemma len_zero (a : string) : Js.len a = 0 -> a = ""%string.
Proof. destruct a; [reflexivity | unfold Js.len; cbn [String.length]; lia]. Qed.

Lemma substring_middle (a b c : string) :
  substring (String.length a) (String.length b) (a ++ b ++ c) = b.
Proof.
  induction a as [|x a IH]; cbn [append String.length substring].
  - apply substring_prefix.
  - exact IH.
Qed.

Lemma indexOf_snoc (cur : string) (ch : ascii) :
  Js.indexOf cur "/"%char = -1 ->
  ch <> "/"%char ->
  Js.indexOf (cur ++ String ch "") "/"%char = -1.
Proof.
  intros H Hch. unfold Js.indexOf in *.
  rewrite index_from_skip by (trivial; lia).
  cbn [Js.index_from]. now destruct (Ascii.eqb_spec ch "/"%char).
Qed.

Lemma all_dots_snoc (cur : string) (ch : ascii) :
  all_dots (cur ++ String ch "") = all_dots cur && Ascii.eqb ch "."%char.
Proof.
  induction cur as [|x cur IH]; cbn [append all_dots].
  - now rewrite andb_true_r.
  - rewrite IH. now rewrite andb_assoc.
Qed.

Lemma concat_snoc (segs : list string) (l : string) :
  segs <> [] ->
  String.concat "/" (segs ++ [l])
  = (String.concat "/" segs ++ "/" ++ l)%string.
Proof.
  induction segs as [|x segs IH]; intros H; [contradiction|].
  destruct segs as [|y segs]; [reflexivity|].
  change (String.concat "/" ((x :: y :: segs) ++ [l]))
    with (x ++ "/" ++ String.concat "/" ((y :: segs) ++ [l]))%string.
  rewrite IH by discriminate.
  change (String.concat "/" (x :: y :: segs))
    with (x ++ "/" ++ String.concat "/" (y :: segs))%string.
  now rewrite !append_assoc.
Qed.

Lemma concat_nonempty (segs : list string) :
  Forall plain_segment segs -> segs <> [] ->
  0 < Js.len (String.concat "/" segs).
Proof.
  intros HF Hne. destruct segs as [|x segs]; [contradiction|].
  inversion HF as [|? ? [Hx _] _]; subst.
  assert (0 < Js.len x).
  { destruct x; [contradiction|]. unfold Js.len. cbn [String.length]. lia. }
  destruct segs as [|y segs]; [assumption|].
  change (String.concat "/" (x :: y :: segs))
    with (x ++ ("/" ++ String.concat "/" (y :: segs)))%string.
  rewrite len_app.
  assert (H0 := len_nonneg ("/" ++ String.concat "/" (y :: segs))).
  lia.
Qed.

(** Cutting a joined run of plain segments at its last slash drops the
    last segment. *)
Lemma drop_last_segment (segs : list string) :
  Forall plain_segment segs ->
  Js.lastIndexOf (String.concat "/" segs) "/"%char <> -1 ->
  exists init,
    Forall plain_segment init
    /\ Js.slice (String.concat "/" segs) 0
         (Js.lastIndexOf (String.concat "/" segs) "/"%char)
       = String.concat "/" init.
Proof.
  intros HF Hidx.
  destruct (@exists_last _ segs) as (init & l & ->).
  { intros ->. now apply Hidx. }
  apply Forall_app in HF. destruct HF as [Hinit Hl].
  inversion Hl as [|? ? (_ & _ & _ & Hnos) _]; subst.
  destruct init as [|x init].
  - exfalso. apply Hidx. cbn [app String.concat]. unfold Js.lastIndexOf.
    now apply last_index_from_none.
  - exists (x :: init). split; trivial.
    rewrite concat_snoc by discriminate.
    cbn [append]. rewrite lastIndexOf_app by exact Hnos.
    unfold Js.slice, Js.len. rewrite Z.sub_0_r, Nat2Z.id.
    cbn [Z.to_nat]. apply substring_prefix.
Qed.

Variable path : string.

(** A separator met at position [i], climbing above the root not being
    allowed: the result is again a run of plain segments. *)
Lemma on_separator_plain (pre cur rest : string) (i : Z) (st : PathPosix.nstate) :
  at_position path pre cur rest i st ->
  let st' := PathPosix.on_separator path false i st in
  PathPosix.lastSlash st' = i
  /\ PathPosix.dots st' = 0
  /\ exists segs,
       PathPosix.res st' = String.concat "/" segs /\ Forall plain_segment segs.
Proof.
  intros [Hpath Hi Hls Hcur Hdots (segs & Hres & HF)].
  assert (Hkeep : exists segs0,
            PathPosix.res st = String.concat "/" segs0
            /\ Forall plain_segment segs0) by (now exists segs).
  assert (Hnil : exists segs0,
            ""%string = String.concat "/" segs0 /\ Forall plain_segment segs0)
    by (now exists []).
  unfold PathPosix.on_separator.
  destruct ((PathPosix.lastSlash st =? i - 1) || (PathPosix.dots st =? 1)) eqn:Enoop.
  { cbn; auto. }
  apply orb_false_iff in Enoop. destruct Enoop as [Hne Hd1].
  apply Z.eqb_neq in Hne. apply Z.eqb_neq in Hd1.
  destruct (PathPosix.dots st =? 2) eqn:Ed2.
  { repeat match goal with
           | |- context [if ?b then _ else _] => destruct b eqn:?
           end; cbn [PathPosix.lastSlash PathPosix.dots PathPosix.res];
      try (repeat split; trivial; fail).
    repeat split; trivial.
    assert (Hidx : Js.lastIndexOf (String.concat "/" segs) "/"%char <> -1).
    { rewrite <- Hres. now apply Z.eqb_neq. }
    destruct (drop_last_segment segs HF Hidx) as (init & Hinit & Hcut).
    exists init. split; trivial. rewrite Hres. exact Hcut. }
  apply Z.eqb_neq in Ed2.
  cbn [PathPosix.lastSlash PathPosix.dots PathPosix.res].
  repeat split; trivial.
  assert (Hseg : Js.slice path (PathPosix.lastSlash st + 1) i = cur).
  { unfold Js.slice. rewrite Hls, Hi, Hpath.
    replace (Js.len pre - 1 + 1) with (Js.len pre) by lia.
    replace (Js.len pre + Js.len cur - Js.len pre) with (Js.len cur) by lia.
    unfold Js.len. rewrite !Nat2Z.id. apply substring_middle. }
  rewrite Hseg.
  assert (Hplain : plain_segment cur).
  { unfold dots_of in Hdots. repeat split; trivial.
    - intros ->. apply Hne. rewrite Hls, Hi. cbn. lia.
    - intros ->. apply Hd1. rewrite Hdots. reflexivity.
    - intros ->. apply Ed2. rewrite Hdots. reflexivity. }
  exists (segs ++ [cur])%list. split.
  - rewrite Hres. destruct segs as [|x segs]; [reflexivity|].
    assert (Hpos := concat_nonempty (x :: segs) HF).
    replace (0 <? Js.len (String.concat "/" (x :: segs))) with true
      by (symmetry; apply Z.ltb_lt; apply Hpos; discriminate).
    rewrite concat_snoc by discriminate. reflexivity.
  - apply Forall_app. split; trivial. now constructor.
Qed.

(** The loop, from any position on, ends with a run of plain segments. *)
Lemma normalize_loop_plain (rest : string) :
  forall pre cur i code st,
    at_position path pre cur rest i st ->
    exists segs,
      PathPosix.normalize_loop path false rest i code st = String.concat "/" segs
      /\ Forall plain_segment segs.
Proof.
  induction rest as [|ch rest IH]; intros pre cur i code st Hat;
    cbn [PathPosix.normalize_loop].
  - destruct (PathPosix.isPosixPathSeparator code).
    + now destruct Hat.
    + unfold PathPosix.step. cbn [PathPosix.isPosixPathSeparator
        PathPosix.CHAR_FORWARD_SLASH Ascii.eqb Bool.eqb].
      now destruct (on_separator_plain _ _ _ _ _ Hat) as (_ & _ & H).
  - unfold PathPosix.step.
    destruct (PathPosix.isPosixPathSeparator ch) eqn:Esep.
    + apply Ascii.eqb_eq in Esep. unfold PathPosix.CHAR_FORWARD_SLASH in Esep.
      subst ch.
      destruct (on_separator_plain _ _ _ _ _ Hat) as (Hls' & Hd' & Hres').
      destruct Hat as [Hpath Hi Hls Hcur Hdots _].
      apply (IH (pre ++ cur ++ "/")%string ""%string). constructor; trivial.
      * rewrite Hpath. cbn [append]. now rewrite !append_assoc.
      * rewrite !len_app, len_cons, !len_nil. lia.
      * rewrite Hls', !len_app, len_cons, len_nil. lia.
    + assert (Hch : ch <> "/"%char).
      { intros ->. discriminate Esep. }
      destruct Hat as [Hpath Hi Hls Hcur Hdots Hres].
      apply (IH pre (cur ++ String ch "")%string).
      destruct (Ascii.eqb ch PathPosix.CHAR_DOT && negb (PathPosix.dots st =? -1))
        eqn:Edot;
        constructor; cbn [PathPosix.lastSlash PathPosix.dots PathPosix.res];
        trivial;
        try (rewrite Hpath, append_assoc; reflexivity);
        try (rewrite len_app, len_cons, len_nil; lia);
        try (now apply indexOf_snoc).
      * apply andb_true_iff in Edot. destruct Edot as [Hdot Hnot].
        apply negb_true_iff, Z.eqb_neq in Hnot.
        unfold dots_of in *. rewrite all_dots_snoc.
        unfold PathPosix.CHAR_DOT in Hdot. rewrite Hdot, andb_true_r.
        destruct (all_dots cur); [|contradiction].
        rewrite Hdots, len_app, len_cons, len_nil. lia.
      * unfold dots_of in *. rewrite all_dots_snoc.
        apply andb_false_iff in Edot. destruct Edot as [Hdot | Hnot].
        -- unfold PathPosix.CHAR_DOT in Hdot. rewrite Hdot, andb_false_r.
           reflexivity.
        -- apply negb_false_iff, Z.eqb_eq in Hnot. rewrite Hnot in Hdots.
           destruct (all_dots cur); [|reflexivity].
           assert (H0 := len_nonneg cur). lia.
Qed.

End Normalize.

(** [normalizeString], climbing above the root not being allowed, gives a
    run of plain segments. *)
Lemma normalizeString_plain (path : string) :
  exists segs,
    PathPosix.normalizeString path false = String.concat "/" segs
    /\ Forall plain_segment segs.
Proof.
  unfold PathPosix.normalizeString.
  apply (normalize_loop_plain path path ""%string ""%string).
  constructor; trivial. now exists [].
Qed.

(** [normalize] puts an absolute path into normal form. *)
Lemma normalize_normal (rest : string) :
  normal_path (PathPosix.normalize (String "/" rest)).
Proof.
  unfold PathPosix.normalize.
  replace (Js.len (String "/" rest) =? 0)%Z with false
    by (symmetry; apply Z.eqb_neq; unfold Js.len; cbn [String.length]; lia).
  cbn [Js.charAt Z.ltb Z.compare Z.to_nat String.get
       PathPosix.isPosixPathSeparator PathPosix.CHAR_FORWARD_SLASH
       Ascii.eqb Bool.eqb negb].
  destruct (normalizeString_plain (String "/" rest)) as (segs & -> & HF).
  destruct (Js.len (String.concat "/" segs) =? 0)%Z eqn:Elen.
  - exists [], ""%string. repeat split; auto.
  - apply Z.eqb_neq in Elen.
    assert (Hne : segs <> []) by (intros ->; now apply Elen).
    match goal with
    | |- context [if ?b then _ else _] => destruct b
    end.
    + exists segs, "/"%string. repeat split; auto.
    + exists segs, ""%string. rewrite append_nil_r. repeat split; auto.
Qed.

(** Joining onto an absolute path gives a path in normal form. *)
Lemma join_normal (a b p : string) :
  absolute a = true ->
  PathPosix.join [Some a; Some b] = Ok p ->
  normal_path p.
Proof.
  intros Ha Hp. destruct (absolute_inv a Ha) as [a' ->].
  unfold PathPosix.join, PathPosix.join_loop in Hp.
  replace (0 <? Js.len (String "/" a'))%Z with true in Hp
    by (symmetry; apply Z.ltb_lt; unfold Js.len; cbn [String.length]; lia).
  destruct (0 <? Js.len b)%Z; inversion Hp; apply normalize_normal.
Qed.

(** X15.  On a session whose root is ["/"] (the root of every session:
    the field is initialised to ["/"] and never assigned), any run of
    [chdir] calls, once it has made one call, leaves as working directory
    the root followed by segments that are never empty, ["."] or [".."]
    and hold no slash, with single slashes between them and at most one
    slash at the end.  So the working directory is never above the root,
    however many [".."] the targets hold. *)
Theorem chdir_cwd_normal (targets : list string) (t : string)
    (s : session_state) :
  root (this s) = "/"%string ->
  exists segs trail,
    workingDir (this (snd (chdir_all (targets ++ [t]) s)))
    = (root (this s) ++ String.concat "/" segs ++ trail)%string
    /\ Forall plain_segment segs
    /\ (trail = ""%string \/ (trail = "/"%string /\ segs <> [])).
Proof.
  intros Hroot.
  destruct (chdir_all_last targets t s) as (p & Hp & Hw).
  rewrite Hw, Hroot. rewrite Hroot in Hp.
  exact (join_normal "/" t p eq_refl Hp).
Qed.

Lemma chdir_cwd_normal_witness :
  exists segs trail,
    workingDir
      (this (snd (chdir_all (["docs"; "../.."] ++ ["a/../../..//b/./c/"])
                    (session_at "/x"))))
    = (root (this (session_at "/x")) ++ String.concat "/" segs ++ trail)%string
    /\ Forall plain_segment segs
    /\ (trail = ""%string \/ (trail = "/"%string /\ segs <> [])).
Proof.
  apply (chdir_cwd_normal ["docs"; "../.."] "a/../../..//b/./c/" (session_at "/x")).
  reflexivity.
Defined.

(** X16.  While the working directory is absolute, the paths that
    [read], [write] and [list] hand to the remote are in normal form,
    whatever the target: no target, with however many [".."], makes a
    request for a path with a [".."], a ["."] or an empty segment in it. *)
Theorem requested_paths_normal (s : session_state) (target : string) :
  absolute (workingDir (this s)) = true ->
  exists p,
    normal_path p
    /\ fst (read target s) = Ok (download_options (this s) p)
    /\ written_url_and_path (fst (write target s)) = Some ("upload" ++ p, p)
    /\ forall net fuel,
         list_ net fuel (Some target) s
         = list_loop net fuel p 0 [] 0 (logged s (path_record s "list" p)).
Proof.
  intros Habs.
  destruct (join_strings (workingDir (this s)) target) as [p Hp].
  exists p. split; [apply (join_normal _ _ _ Habs Hp)|].
  split; [|split].
  - run_method. now rewrite Hp.
  - run_method. now rewrite Hp.
  - intros net fuel. now apply list_enters_loop.
Qed.

Lemma requested_paths_normal_witness :
  exists p,
    normal_path p
    /\ fst (read "../../etc/passwd" (session_at "/a"))
       = Ok (download_options (this (session_at "/a")) p)
    /\ written_url_and_path (fst (write "../../etc/passwd" (session_at "/a")))
       = Some ("upload" ++ p, p)
    /\ forall net fuel,
         list_ net fuel (Some "../../etc/passwd") (session_at "/a")
         = list_loop net fuel p 0 [] 0
             (logged (session_at "/a") (path_record (session_at "/a") "list" p)).
Proof.
  apply (requested_paths_normal (session_at "/a") "../../etc/passwd").
  reflexivity.
Defined.

(** ** Listing a whole folder *)

(** X17.  Against a remote folder that serves its entries in windows of
    [limit] entries from [offset], whatever the number [n] of entries,
    [list] returns every entry once and in the folder's order, after
    [n / 100 + 1] requests for the pages 0, 1, ..., [n / 100]: nothing is
    lost or doubled where one page ends and the next begins. *)
Theorem list_returns_whole_folder (s : session_state)
    (target clientPath : string) (entries : list Api.StackApiStats)
    (fuel : nat) :
  PathPosix.join [Some (workingDir (this s)); Some target] = Ok clientPath ->
  List.length entries / 100 < fuel ->
  lists (folder entries) fuel target s
    (map StackStats.new entries)
    (page_requests s clientPath (List.length entries / 100 + 1)).
Proof. intros Hp Hfuel. now apply lists_folder. Qed.

Lemma list_returns_whole_folder_witness :
  lists (folder (repeat sample_entry 250)) 3 "docs" (session_at "/")
    (map StackStats.new (repeat sample_entry 250))
    (page_requests (session_at "/") "/docs"
       (List.length (repeat sample_entry 250) / 100 + 1)).
Proof.
  apply (list_returns_whole_folder (session_at "/") "docs" "/docs"
           (repeat sample_entry 250) 3).
  - reflexivity.
  - vm_compute. lia.
Defined.
